(** * The eccenca Corporate Memory query runner of redash

    A shallow embedding of [redash/query_runner/corporate_memory.py]:
    the translation of SPARQL 1.1 JSON results into redash result sets
    ([_transform_sparql_results]), the staging of the data source
    configuration into the process environment ([_setup_environment])
    and [run_query].

    The runner is dynamically typed Python, so the embedding works on a
    small universe of Python objects ([value]) and spells out what the
    interpreter does at every subscript, iteration and assignment of the
    source, including the exceptions it raises.

    Conventions of the model:
    - a Python [str] is a [string], one [ascii] per character;
    - a Python [int] is a [Z]; floating point numbers are not part of
      [value];
    - a [dict] is an association list in insertion order with pairwise
      different keys, as Python 3 keeps it;
    - an exception is a constructor of [exn], and a computation that may
      raise returns a [result]. *)

From Stdlib Require Import ZArith String Ascii List Bool Lia.
From stdpp Require Import base option list gmap strings pretty.

Local Open Scope string_scope.
Local Open Scope list_scope.

(** ** Exceptions and results *)

Inductive exn : Type :=
| KeyError
| TypeError
| IndexError
| ValueError
| JSONDecodeError
| NotModelled
| ForeignError (name : string).

Inductive result (A : Type) : Type :=
| Ok (a : A)
| Raise (e : exn).
Arguments Ok {A} a.
Arguments Raise {A} e.

Global Instance result_ret : MRet result := fun _ a => Ok a.
Global Instance result_bind : MBind result := fun _ _ f m =>
  match m with
  | Ok a => f a
  | Raise e => Raise e
  end.

(** ** Python objects *)

(** The hashable scalars, which are the possible keys of a dict. *)
Inductive key : Type :=
| KNone
| KBool (b : bool)
| KInt (n : Z)
| KStr (s : string).

#[local] Unset Elimination Schemes.
Inductive value : Type :=
| VNone
| VBool (b : bool)
| VInt (n : Z)
| VStr (s : string)
| VList (l : list value)
| VDict (d : list (key * value)).
#[local] Set Elimination Schemes.

Abbreviation dict := (list (key * value)).

(** [True == 1] and [False == 0] in Python, and equal objects are the
    same dict key. *)
Definition key_num (k : key) : option Z :=
  match k with
  | KBool b => Some (Z.b2z b)
  | KInt n => Some n
  | _ => None
  end.

Definition key_eqb (k1 k2 : key) : bool :=
  match k1, k2 with
  | KNone, KNone => true
  | KStr s1, KStr s2 => String.eqb s1 s2
  | _, _ =>
      match key_num k1, key_num k2 with
      | Some n1, Some n2 => Z.eqb n1 n2
      | _, _ => false
      end
  end.

(** [hash(x)]: lists and dicts are unhashable. *)
Definition as_key (x : value) : option key :=
  match x with
  | VNone => Some KNone
  | VBool b => Some (KBool b)
  | VInt n => Some (KInt n)
  | VStr s => Some (KStr s)
  | VList _ | VDict _ => None
  end.

Definition key_value (k : key) : value :=
  match k with
  | KNone => VNone
  | KBool b => VBool b
  | KInt n => VInt n
  | KStr s => VStr s
  end.

(** [d[k]] read, [k in d] and [d[k] = x] on a dict: an assignment to a
    key that is present replaces the value in place, a new key goes to
    the end. *)
Fixpoint dict_get (d : dict) (k : key) : option value :=
  match d with
  | [] => None
  | (k', x) :: d' => if key_eqb k' k then Some x else dict_get d' k
  end.

Fixpoint dict_set (d : dict) (k : key) (x : value) : dict :=
  match d with
  | [] => [(k, x)]
  | (k', x') :: d' =>
      if key_eqb k' k then (k', x) :: d' else (k', x') :: dict_set d' k x
  end.

Definition dict_keys (d : dict) : list key := fst <$> d.

(** [l[i]] on a sequence: a negative index counts from the end. *)
Definition seq_index {A} (l : list A) (i : Z) : option A :=
  let n := Z.of_nat (length l) in
  let j := if (i <? 0)%Z then (i + n)%Z else i in
  if ((0 <=? j) && (j <? n))%Z then l !! Z.to_nat j else None.

Definition as_index (k : value) : option Z :=
  match k with
  | VInt n => Some n
  | VBool b => Some (Z.b2z b)
  | _ => None
  end.

Definition chars (s : string) : list value :=
  (fun c => VStr (String c EmptyString)) <$> list_ascii_of_string s.

(** [x[k]]: the subscript expression. *)
Definition getitem (x k : value) : result value :=
  match x with
  | VDict d =>
      match as_key k with
      | None => Raise TypeError
      | Some k' =>
          match dict_get d k' with
          | Some v => Ok v
          | None => Raise KeyError
          end
      end
  | VList l =>
      match as_index k with
      | None => Raise TypeError
      | Some i =>
          match seq_index l i with
          | Some v => Ok v
          | None => Raise IndexError
          end
      end
  | VStr s =>
      match as_index k with
      | None => Raise TypeError
      | Some i =>
          match seq_index (chars s) i with
          | Some v => Ok v
          | None => Raise IndexError
          end
      end
  | VNone | VBool _ | VInt _ => Raise TypeError
  end.

(** [d[k] = x] on a dict [d]. *)
Definition setitem (d : dict) (k x : value) : result dict :=
  match as_key k with
  | None => Raise TypeError
  | Some k' => Ok (dict_set d k' x)
  end.

(** [for y in x]: the sequence of objects the loop visits. *)
Definition py_iter (x : value) : result (list value) :=
  match x with
  | VList l => Ok l
  | VDict d => Ok (key_value <$> dict_keys d)
  | VStr s => Ok (chars s)
  | VNone | VBool _ | VInt _ => Raise TypeError
  end.

(** A [for] loop whose body updates an accumulator and may raise: the
    first exception ends the loop. *)
Fixpoint for_each {A S} (body : S -> A -> result S) (s : S) (l : list A)
  : result S :=
  match l with
  | [] => Ok s
  | a :: l' => s' ← body s a; for_each body s' l'
  end.

(** ** The translation of a parsed SPARQL result

    Lines 119-141 of the source, on the object [json_loads] returned. *)

(** [row[var] = sparql_row[var]["value"]] *)
Definition assign_cell (row : dict) (sparql_row var : value) : result dict :=
  d ← getitem sparql_row var;
  x ← getitem d (VStr "value");
  setitem row var x.

(** The [try] statement of the inner loop: only [KeyError] is handled. *)
Definition set_cell (row : dict) (sparql_row var : value) : result dict :=
  match assign_cell row sparql_row var with
  | Raise KeyError => setitem row var (VStr EmptyString)
  | r => r
  end.

(** [sparql_results["head"]["vars"]], as the iterable of a [for]. *)
Definition head_vars (sparql_results : value) : result (list value) :=
  head ← getitem sparql_results (VStr "head");
  vars ← getitem head (VStr "vars");
  py_iter vars.

(** The body of the outer loop: one redash row for one binding. *)
Definition make_row (sparql_results sparql_row : value) : result value :=
  vars ← head_vars sparql_results;
  row ← for_each (fun row var => set_cell row sparql_row var) [] vars;
  Ok (VDict row).

Definition make_column (var : value) : value :=
  VDict [(KStr "name", var); (KStr "friendly_name", var);
         (KStr "type", VStr "string")].

Definition sparql_bindings (sparql_results : value) : result (list value) :=
  results ← getitem sparql_results (VStr "results");
  bindings ← getitem results (VStr "bindings");
  py_iter bindings.

Definition transform (sparql_results : value) : result value :=
  bindings ← sparql_bindings sparql_results;
  rows ← for_each (fun rows sparql_row =>
                     row ← make_row sparql_results sparql_row;
                     Ok (rows ++ [row])) [] bindings;
  vars ← head_vars sparql_results;
  columns ← for_each (fun columns var => Ok (columns ++ [make_column var]))
                     [] vars;
  Ok (VDict [(KStr "columns", VList columns); (KStr "rows", VList rows)]).

(** ** The process: environment and log *)

(** A record handed to [logger.info]: the format string and the
    arguments of [format], in order. *)
Record log_record : Type := LogInfo {
  log_format : string;
  log_args : list string
}.

(** What the runner reads and writes outside its own objects:
    [os.environ] and the log of the module's [logger]. *)
Record World : Type := MkWorld {
  environ : gmap string string;
  log : list log_record
}.

(** A statement of the runner: it may change the world and it either
    yields an object or raises. *)
Definition M (A : Type) : Type := World -> result A * World.

Global Instance M_ret : MRet M := fun _ a w => (Ok a, w).
Global Instance M_bind : MBind M := fun _ _ f m w =>
  match m w with
  | (Ok a, w') => f a w'
  | (Raise e, w') => (Raise e, w')
  end.

Definition lift {A} (r : result A) : M A := fun w => (r, w).

Definition logger_info (format : string) (args : list string) : M unit :=
  fun w => (Ok tt, MkWorld (environ w) (log w ++ [LogInfo format args])).

(** [key in environ] *)
Definition environ_contains (k : string) : M bool :=
  fun w => (Ok (bool_decide (is_Some (environ w !! k))), w).

(** [environ.pop(key)] *)
Definition environ_pop (k : string) : M string :=
  fun w =>
    match environ w !! k with
    | Some v => (Ok v, MkWorld (delete k (environ w)) (log w))
    | None => (Raise KeyError, w)
    end.

(** [environ[key]] *)
Definition environ_getitem (k : string) : M string :=
  fun w =>
    match environ w !! k with
    | Some v => (Ok v, w)
    | None => (Raise KeyError, w)
    end.

Definition has_nul (s : string) : bool :=
  existsb (Ascii.eqb Ascii.zero) (list_ascii_of_string s).

(** [environ[key] = value]: [os.environ] takes only a [str] ([TypeError]
    otherwise) that holds no null character ([ValueError]). *)
Definition environ_setitem (k : string) (x : value) : M unit :=
  fun w =>
    match x with
    | VStr s =>
        if has_nul s then (Raise ValueError, w)
        else (Ok tt, MkWorld (<[k:=s]> (environ w)) (log w))
    | _ => (Raise TypeError, w)
    end.

(** A [for] loop over statements. *)
Fixpoint for_each_M {A} (body : A -> M unit) (l : list A) : M unit :=
  match l with
  | [] => mret tt
  | a :: l' => body a;; for_each_M body l'
  end.

(** ** The runner *)

Definition KNOWN_CONFIG_KEYS : list string :=
  [ "CMEM_BASE_PROTOCOL"; "CMEM_BASE_DOMAIN"; "CMEM_BASE_URI"; "SSL_VERIFY";
    "REQUESTS_CA_BUNDLE"; "DP_API_ENDPOINT"; "DI_API_ENDPOINT";
    "OAUTH_TOKEN_URI"; "OAUTH_GRANT_TYPE"; "OAUTH_USER"; "OAUTH_PASSWORD";
    "OAUTH_CLIENT_ID"; "OAUTH_CLIENT_SECRET" ].

Definition KNOWN_SECRET_KEYS : list string :=
  [ "OAUTH_PASSWORD"; "OAUTH_CLIENT_SECRET" ].

(** This allows for an easy connection test. *)
Definition noop_query : string := "SELECT ?noop WHERE {BIND('noop' as ?noop)}".

(** [self.configuration.get(key, None)] *)
Definition configuration_get (configuration : gmap string value) (k : string)
  : value :=
  default VNone (configuration !! k).

Definition is_not_None (x : value) : bool :=
  match x with VNone => false | _ => true end.

(** The body of the loop of [_setup_environment], lines 80-92. *)
Definition stage_key (configuration : gmap string value) (k : string)
  : M unit :=
  present ← environ_contains k;
  (if present : bool then environ_pop k;; mret tt else mret tt);;
  let value := configuration_get configuration k in
  if is_not_None value then
    environ_setitem k value;;
    if bool_decide (k ∈ KNOWN_SECRET_KEYS) then
      logger_info "{} set by config" [k]
    else
      v ← environ_getitem k;
      logger_info "{} set by config to {}" [k; v]
  else mret tt.

Definition _setup_environment (configuration : gmap string value) : M unit :=
  for_each_M (stage_key configuration) KNOWN_CONFIG_KEYS.

Section Runner.

(** [json_loads] and [json_dumps] of [redash.utils], [str.encode] and
    the SPARQL client of [cmempy] are used by the runner and defined
    elsewhere: the runner is modelled over any of them. A call of the
    client, [SparqlQuery(query).get_results()], is a statement like any
    other: it reads the environment, may change the world and may
    raise. *)
Variable json_loads : string -> result value.
Variable json_dumps : value -> string.
Variable encode_utf8 : string -> result string.
Variable SparqlQuery_get_results : string -> M string.

(** [self.configuration] *)
Variable configuration : gmap string value.

Definition _transform_sparql_results (results : string) : M string :=
  logger_info "results are: {}" [results];;
  sparql_results ← lift (json_loads results);
  data ← lift (transform sparql_results);
  mret (json_dumps data).

Definition run_query (query : string) : M (string * option string) :=
  query ← lift (encode_utf8 query);
  logger_info "about to execute query: {}" [query];;
  _setup_environment configuration;;
  raw ← SparqlQuery_get_results query;
  results ← lift (encode_utf8 raw);
  data ← _transform_sparql_results results;
  let error := None in
  mret (data, error).

End Runner.

(** ** An executable JSON reader and writer

    [redash.utils] is not among the sources of the runner, so the
    theorems below hold for every [json_loads] and [json_dumps]. To run
    the runner on concrete texts, this module provides one pair. *)
Module JsonModel.

Definition code (c : ascii) : N := N_of_ascii c.
Definition chr (n : N) : ascii := ascii_of_N n.

Definition quote : ascii := chr 34.
Definition backslash : ascii := chr 92.

Definition is_ws (c : ascii) : bool :=
  match code c with
  | 32 | 9 | 10 | 13 => true
  | _ => false
  end%N.

Fixpoint skip_ws (s : list ascii) : list ascii :=
  match s with
  | c :: r => if is_ws c then skip_ws r else s
  | [] => []
  end.

Definition digit_val (c : ascii) : option Z :=
  let n := code c in
  if ((48 <=? n) && (n <=? 57))%N then Some (Z.of_N (n - 48)) else None.

Definition hex_val (c : ascii) : option N :=
  let n := code c in
  if ((48 <=? n) && (n <=? 57))%N then Some (n - 48)%N
  else if ((65 <=? n) && (n <=? 70))%N then Some (n - 55)%N
  else if ((97 <=? n) && (n <=? 102))%N then Some (n - 87)%N
  else None.

Definition is_digit (c : ascii) : bool :=
  match digit_val c with Some _ => true | None => false end.

(** The characters of a string literal after its opening quote. A
    [\u] escape above [U+00FF] has no [ascii]. *)
Fixpoint parse_string (s : list ascii) (acc : list ascii)
  : result (string * list ascii) :=
  match s with
  | [] => Raise JSONDecodeError
  | c :: r =>
      if Ascii.eqb c quote then Ok (string_of_list_ascii (rev acc), r)
      else if Ascii.eqb c backslash then
        match r with
        | [] => Raise JSONDecodeError
        | e :: r' =>
            let simple (x : N) := parse_string r' (chr x :: acc) in
            match code e with
            | 34 => simple 34
            | 92 => simple 92
            | 47 => simple 47
            | 98 => simple 8
            | 102 => simple 12
            | 110 => simple 10
            | 114 => simple 13
            | 116 => simple 9
            | 117 =>
                match r' with
                | h1 :: h2 :: h3 :: h4 :: r'' =>
                    match hex_val h1, hex_val h2, hex_val h3, hex_val h4 with
                    | Some a, Some b, Some c', Some d =>
                        if ((a =? 0) && (b =? 0))%N then
                          parse_string r'' (chr (16 * c' + d) :: acc)
                        else Raise NotModelled
                    | _, _, _, _ => Raise JSONDecodeError
                    end
                | _ => Raise JSONDecodeError
                end
            | _ => Raise JSONDecodeError
            end%N
        end
      else if (code c <? 32)%N then Raise JSONDecodeError
      else parse_string r (c :: acc)
  end.

Fixpoint parse_digits (s : list ascii) (acc : Z) : Z * list ascii :=
  match s with
  | c :: r =>
      match digit_val c with
      | Some d => parse_digits r (10 * acc + d)%Z
      | None => (acc, s)
      end
  | [] => (acc, [])
  end.

(** A fraction or an exponent after the integer part makes the
    literal a float. *)
Definition starts_float_tail (s : list ascii) : bool :=
  match s with
  | c :: d :: r =>
      match code c with
      | 46 => is_digit d
      | 69 | 101 =>
          is_digit d ||
          (match code d, r with
           | 43, x :: _ | 45, x :: _ => is_digit x
           | _, _ => false
           end)
      | _ => false
      end%N
  | _ => false
  end.

(** An optional minus sign, then [0] alone or digits that do not
    start with [0]. *)
Definition parse_int (s : list ascii) : result (value * list ascii) :=
  let '(neg, s1) :=
    match s with
    | c :: r => if (code c =? 45)%N then (true, r) else (false, s)
    | [] => (false, s)
    end in
  match s1 with
  | c :: r =>
      match digit_val c with
      | None => Raise JSONDecodeError
      | Some d =>
          let '(n, rest) :=
            if (d =? 0)%Z then (0%Z, r) else parse_digits r d in
          if starts_float_tail rest then Raise NotModelled
          else Ok (VInt (if neg : bool then (- n)%Z else n), rest)
      end
  | [] => Raise JSONDecodeError
  end.

Fixpoint strip_prefix (p s : list ascii) : option (list ascii) :=
  match p, s with
  | [], _ => Some s
  | a :: p', b :: s' => if Ascii.eqb a b then strip_prefix p' s' else None
  | _ :: _, [] => None
  end.

Definition parse_scalar (s : list ascii) : result (value * list ascii) :=
  let word (w : string) := strip_prefix (list_ascii_of_string w) s in
  match word "null", word "true", word "false" with
  | Some r, _, _ => Ok (VNone, r)
  | _, Some r, _ => Ok (VBool true, r)
  | _, _, Some r => Ok (VBool false, r)
  | _, _, _ =>
      match word "NaN", word "Infinity", word "-Infinity" with
      | None, None, None => parse_int s
      | _, _, _ => Raise NotModelled
      end
  end.

(** What the reader is about to read: a value, the rest of an array
    or the rest of an object. *)
Inductive task : Type :=
| TValue
| TElements (acc : list value)
| TMembers (acc : dict).

Definition expect (c : ascii) (s : list ascii) : result (list ascii) :=
  match skip_ws s with
  | c' :: r => if Ascii.eqb c c' then Ok r else Raise JSONDecodeError
  | [] => Raise JSONDecodeError
  end.

Fixpoint parse (fuel : nat) (t : task) (s : list ascii)
  : result (value * list ascii) :=
  match fuel with
  | O => Raise NotModelled
  | S fuel =>
      match t with
      | TValue =>
          match skip_ws s with
          | [] => Raise JSONDecodeError
          | c :: r =>
              match code c with
              | 123 =>
                  match skip_ws r with
                  | c' :: r' =>
                      if (code c' =? 125)%N then Ok (VDict [], r')
                      else parse fuel (TMembers []) r
                  | [] => Raise JSONDecodeError
                  end
              | 91 =>
                  match skip_ws r with
                  | c' :: r' =>
                      if (code c' =? 93)%N then Ok (VList [], r')
                      else parse fuel (TElements []) r
                  | [] => Raise JSONDecodeError
                  end
              | 34 => '(str, r') ← parse_string r []; Ok (VStr str, r')
              | _ => parse_scalar (c :: r)
              end%N
          end
      | TElements acc =>
          '(v, r) ← parse fuel TValue s;
          match skip_ws r with
          | c :: r' =>
              match code c with
              | 44 => parse fuel (TElements (acc ++ [v])) r'
              | 93 => Ok (VList (acc ++ [v]), r')
              | _ => Raise JSONDecodeError
              end%N
          | [] => Raise JSONDecodeError
          end
      | TMembers acc =>
          r ← expect quote s;
          '(k, r) ← parse_string r [];
          r ← expect (chr 58) r;
          '(v, r) ← parse fuel TValue r;
          let acc := dict_set acc (KStr k) v in
          match skip_ws r with
          | c :: r' =>
              match code c with
              | 44 => parse fuel (TMembers acc) r'
              | 125 => Ok (VDict acc, r')
              | _ => Raise JSONDecodeError
              end%N
          | [] => Raise JSONDecodeError
          end
      end
  end.

(** Modelled from the spec: [json_loads] of [redash.utils], which is
    not among the sources. It parses its argument as one JSON text
    (RFC 8259, and a key given twice keeps its first place and its last
    value) and raises [JSONDecodeError] on anything else. Number
    literals with a fraction or an exponent stand for floats, which
    [value] does not have: on them, and on a [\u] escape above
    [U+00FF], it raises [NotModelled]. *)
Definition json_loads (s : string) : result value :=
  let l := list_ascii_of_string s in
  '(v, r) ← parse (2 * length l + 2) TValue l;
  match skip_ws r with
  | [] => Ok v
  | _ :: _ => Raise JSONDecodeError
  end.

Definition hex_digit (n : N) : ascii :=
  if (n <? 10)%N then chr (48 + n) else chr (87 + n).

Definition escape_char (c : ascii) : list ascii :=
  let n := code c in
  match n with
  | 34 => [backslash; quote]
  | 92 => [backslash; backslash]
  | 8 => [backslash; chr 98]
  | 12 => [backslash; chr 102]
  | 10 => [backslash; chr 110]
  | 13 => [backslash; chr 114]
  | 9 => [backslash; chr 116]
  | _ =>
      if ((32 <=? n) && (n <=? 126))%N then [c]
      else [backslash; chr 117; chr 48; chr 48;
            hex_digit (n / 16); hex_digit (n mod 16)]
  end%N.

Definition dumps_str (s : string) : string :=
  string_of_list_ascii
    (quote :: concat (escape_char <$> list_ascii_of_string s) ++ [quote]).

Definition dumps_key (k : key) : string :=
  match k with
  | KNone => dumps_str "null"
  | KBool true => dumps_str "true"
  | KBool false => dumps_str "false"
  | KInt n => dumps_str (pretty n)
  | KStr s => dumps_str s
  end.

(** Modelled from the spec: [json_dumps] of [redash.utils], which is
    not among the sources. It writes an object as one JSON text, the
    members of a dict in the order of the dict, with [", "] between
    items and [": "] after a key, and with every character outside
    printable ASCII escaped. *)
Fixpoint json_dumps (v : value) : string :=
  match v with
  | VNone => "null"
  | VBool true => "true"
  | VBool false => "false"
  | VInt n => pretty n
  | VStr s => dumps_str s
  | VList l =>
      "[" +:+
      (fix items (l : list value) : string :=
         match l with
         | [] => EmptyString
         | x :: l' =>
             json_dumps x +:+
             match l' with [] => EmptyString | _ :: _ => ", " +:+ items l' end
         end) l +:+ "]"
  | VDict d =>
      "{" +:+
      (fix members (d : dict) : string :=
         match d with
         | [] => EmptyString
         | (k, x) :: d' =>
             dumps_key k +:+ ": " +:+ json_dumps x +:+
             match d' with [] => EmptyString | _ :: _ => ", " +:+ members d' end
         end) d +:+ "}"
  end.

(** [str.encode("utf-8")] on ASCII text, where it changes nothing. *)
Definition encode_ascii (s : string) : result string :=
  if forallb (fun c => (code c <? 128)%N) (list_ascii_of_string s)
  then Ok s else Raise NotModelled.

End JsonModel.

(** ** The shape of a SPARQL result and the rows the spec describes *)

(** [x.k] of the spec: the member [k] of a JSON object. *)
Definition member (x : value) (k : string) : option value :=
  match x with
  | VDict d => dict_get d (KStr k)
  | _ => None
  end.

(** [x.k1.k2] *)
Definition member2 (x : value) (k1 k2 : string) : option value :=
  y ← member x k1; member y k2.

(** The parsed input contains [head.vars], an array of the strings
    [vars], and [results.bindings], an array of the objects [bs]. *)
Definition sparql_shape (j : value) (vars : list string) (bs : list dict)
  : Prop :=
  member2 j "head" "vars" = Some (VList (VStr <$> vars)) /\
  member2 j "results" "bindings" = Some (VList (VDict <$> bs)).

(** Every value a binding gives to a variable of [head.vars] is an
    object (a value descriptor of the SPARQL results format). *)
Definition bound_to_objects (vars : list string) (bs : list dict) : Prop :=
  forall b v x,
    b ∈ bs -> v ∈ vars -> dict_get b (KStr v) = Some x ->
    exists descriptor, x = VDict descriptor.

(** [bound_to_objects] as a test. *)
Definition bound_to_objects_b (vars : list string) (bs : list dict) : bool :=
  forallb (fun b =>
             forallb (fun v => match dict_get b (KStr v) with
                               | Some (VDict _) | None => true
                               | Some _ => false
                               end) vars) bs.

(** The cell of variable [v] for binding [b], in the spec's words:
    [b[v].value] if [v] is a key of [b] and that value has a [value]
    field, the empty string otherwise. *)
Definition spec_cell (b : dict) (v : string) : value :=
  match dict_get b (KStr v) with
  | Some (VDict descriptor) =>
      match dict_get descriptor (KStr "value") with
      | Some x => x
      | None => VStr EmptyString
      end
  | _ => VStr EmptyString
  end.

(** [row[v]] is set for each [v] of [vars], in order. *)
Definition fill_row (b : dict) (row : dict) (vars : list string) : dict :=
  foldl (fun row v => dict_set row (KStr v) (spec_cell b v)) row vars.

(** The row of binding [b], filled from the empty dict. *)
Definition spec_row (vars : list string) (b : dict) : dict :=
  fill_row b [] vars.

(** The column of variable [v]. *)
Definition spec_column (v : string) : value :=
  VDict [(KStr "name", VStr v); (KStr "friendly_name", VStr v);
         (KStr "type", VStr "string")].

Definition redash_result (columns rows : list value) : value :=
  VDict [(KStr "columns", VList columns); (KStr "rows", VList rows)].

(** Two keys are the same key when they agree once [True] and [False]
    are read as [1] and [0]. *)
Definition key_norm (k : key) : key :=
  match k with
  | KBool b => KInt (Z.b2z b)
  | _ => k
  end.

#[global] Instance key_eq_dec : EqDecision key.
Proof. solve_decision. Defined.

(** [map] with a function that may raise: the first exception wins. *)
Fixpoint map_result {A B} (f : A -> result B) (l : list A) : result (list B) :=
  match l with
  | [] => Ok []
  | a :: l' => b ← f a; bs ← map_result f l'; Ok (b :: bs)
  end.

(** JSON texts are written with ['] for the quotation mark. *)
Definition dq (s : string) : string :=
  string_of_list_ascii
    ((fun c => if Ascii.eqb c (ascii_of_N 39) then JsonModel.quote else c)
       <$> list_ascii_of_string s).


(** What [_setup_environment] puts into the environment for key [k]:
    the configured string, or nothing. *)
Definition staged (configuration : gmap string value) (k : string)
  : option string :=
  match configuration_get configuration k with
  | VStr s => Some s
  | _ => None
  end.

(** The value configured for [k] is one [os.environ] accepts, or there
    is none. *)
Definition stageable (configuration : gmap string value) (k : string) : Prop :=
  configuration_get configuration k = VNone \/
  exists s, configuration_get configuration k = VStr s /\ has_nul s = false.

(** The record [_setup_environment] logs for key [k] set to [s]. *)
Definition staging_record (k s : string) : log_record :=
  if bool_decide (k ∈ KNOWN_SECRET_KEYS) then LogInfo "{} set by config" [k]
  else LogInfo "{} set by config to {}" [k; s].

(** ** Sample inputs *)

Definition world0 : World := MkWorld ∅ [].

(** Scenario 1 of the spec, the answer to [noop_query]. *)
Definition scenario_1_text : string :=
  dq "{'head':{'vars':['noop']},'results':{'bindings':[{'noop':{'type':'literal','value':'noop'}}]}}".

Definition scenario_1_parsed : value :=
  VDict [(KStr "head", VDict [(KStr "vars", VList [VStr "noop"])]);
         (KStr "results",
          VDict [(KStr "bindings",
                  VList [VDict [(KStr "noop",
                                 VDict [(KStr "type", VStr "literal");
                                        (KStr "value", VStr "noop")])]])])].

Definition scenario_1_expected_text : string :=
  dq "{'columns':[{'name':'noop','friendly_name':'noop','type':'string'}],'rows':[{'noop':'noop'}]}".

Definition scenario_1_expected : value :=
  VDict [(KStr "columns",
          VList [VDict [(KStr "name", VStr "noop");
                        (KStr "friendly_name", VStr "noop");
                        (KStr "type", VStr "string")]]);
         (KStr "rows", VList [VDict [(KStr "noop", VStr "noop")]])].

(** Scenario 2 of the spec: two variables, the binding has only [a]. *)
Definition scenario_2_text : string :=
  dq "{'head':{'vars':['a','b']},'results':{'bindings':[{'a':{'type':'uri','value':'http://x'}}]}}".

Definition scenario_2_parsed : value :=
  VDict [(KStr "head", VDict [(KStr "vars", VList [VStr "a"; VStr "b"])]);
         (KStr "results",
          VDict [(KStr "bindings",
                  VList [VDict [(KStr "a",
                                 VDict [(KStr "type", VStr "uri");
                                        (KStr "value", VStr "http://x")])]])])].

Definition scenario_2_binding : dict :=
  [(KStr "a", VDict [(KStr "type", VStr "uri"); (KStr "value", VStr "http://x")])].

(** A binding that gives its variable a plain string. *)
Definition plain_string_text : string :=
  dq "{'head':{'vars':['a']},'results':{'bindings':[{'a':'x'}]}}".

Definition plain_string_parsed : value :=
  VDict [(KStr "head", VDict [(KStr "vars", VList [VStr "a"])]);
         (KStr "results",
          VDict [(KStr "bindings", VList [VDict [(KStr "a", VStr "x")]])])].

(** A variable listed twice, as the query [SELECT ?a ?a] projects it. *)
Definition twice_text : string :=
  dq "{'head':{'vars':['a','a']},'results':{'bindings':[{'a':{'type':'literal','value':'1'}}]}}".

Definition twice_binding : dict :=
  [(KStr "a", VDict [(KStr "type", VStr "literal"); (KStr "value", VStr "1")])].

Definition twice_parsed : value :=
  VDict [(KStr "head", VDict [(KStr "vars", VList [VStr "a"; VStr "a"])]);
         (KStr "results", VDict [(KStr "bindings", VList [VDict twice_binding])])].

(** A descriptor whose [value] is a number. *)
Definition number_text : string :=
  dq "{'head':{'vars':['n']},'results':{'bindings':[{'n':{'type':'literal','value':42}}]}}".

Definition number_parsed : value :=
  VDict [(KStr "head", VDict [(KStr "vars", VList [VStr "n"])]);
         (KStr "results",
          VDict [(KStr "bindings",
                  VList [VDict [(KStr "n",
                                 VDict [(KStr "type", VStr "literal");
                                        (KStr "value", VInt 42)])]])])].

Definition number_binding : dict :=
  [(KStr "n", VDict [(KStr "type", VStr "literal"); (KStr "value", VInt 42)])].

(** Texts the translator cannot take: not JSON, and JSON without [head]. *)
Definition not_json_text : string := "{not json".

Definition no_head_text : string := dq "{'results':{'bindings':[]}}".

(** Scenario 5 of the spec: one configured key, in a process that has
    another allow-listed key and a foreign key in its environment. *)
Definition scenario_5_configuration : gmap string value :=
  {[ "CMEM_BASE_URI" := VStr "https://x" ]}.

Definition scenario_5_world : World :=
  MkWorld (<["OAUTH_USER" := "old"]> {[ "PATH" := "/bin" ]}) [].

(** A client that answers every query with the text of scenario 1, and
    one that fails to connect. *)
Definition answering_client (query : string) : M string :=
  fun w => (Ok scenario_1_text, w).

Definition failing_client (query : string) : M string :=
  fun w => (Raise (ForeignError "ConnectionError"), w).
(** ** Further definitions: row keys, the configuration schema *)

(** The keys of a dict after [d[k] = x], from its keys before. *)
Fixpoint keys_add (ks : list key) (k : key) : list key :=
  match ks with
  | [] => [k]
  | k' :: ks' => if key_eqb k' k then k' :: ks' else k' :: keys_add ks' k
  end.

(** What a binding holds for variable [v]: the [value] field of its
    descriptor, if [v] is bound to an object that has one. *)
Definition bound_value (b : dict) (v : string) : option value :=
  match dict_get b (KStr v) with
  | Some (VDict descriptor) => dict_get descriptor (KStr "value")
  | _ => None
  end.

(** [configuration_schema()], lines 183-215. *)
Definition configuration_schema : value :=
  VDict
    [(KStr "type", VStr "object");
     (KStr "properties",
      VDict
        [(KStr "CMEM_BASE_URI",
          VDict [(KStr "type", VStr "string");
                 (KStr "title", VStr "CMEM_BASE_URL")]);
         (KStr "OAUTH_GRANT_TYPE",
          VDict [(KStr "type", VStr "string");
                 (KStr "title",
                  VStr "OAUTH_GRANT_TYPE (can be: password or client_credentials)");
                 (KStr "default", VStr "client_credentials")]);
         (KStr "OAUTH_CLIENT_ID",
          VDict [(KStr "type", VStr "string");
                 (KStr "title",
                  VStr "OAUTH_CLIENT_ID (e.g. cmem-service-account)");
                 (KStr "default", VStr "cmem-service-account")]);
         (KStr "OAUTH_CLIENT_SECRET",
          VDict [(KStr "type", VStr "string");
                 (KStr "title",
                  VStr "OAUTH_CLIENT_SECRET - only needed for grant type 'client_credentials'")]);
         (KStr "OAUTH_USER",
          VDict [(KStr "type", VStr "string");
                 (KStr "title",
                  VStr "OAUTH_USER (e.g. admin) - only needed for grant type 'password'")]);
         (KStr "OAUTH_PASSWORD",
          VDict [(KStr "type", VStr "string");
                 (KStr "title",
                  VStr "OAUTH_PASSWORD - only needed for grant type 'password'")])]);
     (KStr "required",
      VList [VStr "CMEM_BASE_URI"; VStr "OAUTH_GRANT_TYPE"; VStr "OAUTH_CLIENT_ID"]);
     (KStr "secret", VList [VStr "OAUTH_CLIENT_SECRET"])].

(** [k] is a property the schema declares: a key of its [properties]. *)
Definition schema_property (schema : value) (k : string) : Prop :=
  exists description, member2 schema "properties" k = Some description.

(** ** Further sample inputs *)

(** A configuration that gives [SSL_VERIFY] as a boolean. *)
Definition ssl_flag_configuration : gmap string value :=
  <["SSL_VERIFY" := VBool false]> {[ "CMEM_BASE_URI" := VStr "https://x" ]}.

(** A configuration with a client secret. *)
Definition secret_configuration : gmap string value :=
  <["OAUTH_CLIENT_SECRET" := VStr "s3cret"]>
    {[ "CMEM_BASE_URI" := VStr "https://x" ]}.

(** Scenario 2 again, with other types, a language tag and a variable
    that [head.vars] does not list. *)
Definition scenario_2_variant_parsed : value :=
  VDict [(KStr "head", VDict [(KStr "vars", VList [VStr "a"; VStr "b"])]);
         (KStr "results",
          VDict [(KStr "bindings",
                  VList [VDict [(KStr "c", VDict [(KStr "value", VStr "dropped")]);
                                (KStr "a",
                                 VDict [(KStr "value", VStr "http://x");
                                        (KStr "type", VStr "literal");
                                        (KStr "xml:lang", VStr "en")]);
                                (KStr "b", VDict [(KStr "value", VStr EmptyString)])]])])].

Definition scenario_2_variant_text : string :=
  dq "{'head':{'vars':['a','b']},'results':{'bindings':[{'c':{'value':'dropped'},'a':{'value':'http://x','type':'literal','xml:lang':'en'},'b':{'value':''}}]}}".

Definition scenario_2_variant_binding : dict :=
  [(KStr "c", VDict [(KStr "value", VStr "dropped")]);
   (KStr "a", VDict [(KStr "value", VStr "http://x");
                     (KStr "type", VStr "literal");
                     (KStr "xml:lang", VStr "en")]);
   (KStr "b", VDict [(KStr "value", VStr EmptyString)])].

(** Bindings that are not objects, with and without variables. *)
Definition stray_binding_parsed : value :=
  VDict [(KStr "head", VDict [(KStr "vars", VList [VStr "a"])]);
         (KStr "results",
          VDict [(KStr "bindings",
                  VList [VDict [(KStr "a", VDict [(KStr "value", VStr "1")])];
                         VList [VStr "a"]])])].

Definition no_vars_parsed : value :=
  VDict [(KStr "head", VDict [(KStr "vars", VList [])]);
         (KStr "results",
          VDict [(KStr "bindings",
                  VList [VDict [(KStr "a", VStr "x")]; VInt 5])])].

(** A process that has [SSL_VERIFY] and [OAUTH_USER] in its environment
    from an earlier query. *)
Definition earlier_world : World :=
  MkWorld (<["SSL_VERIFY" := "true"]> (<["OAUTH_USER" := "old"]> ∅)) [].

(** * Properties *)

(** ** Results *)

Lemma bind_Ok {A B} (f : A -> result B) (a : A) : (Ok a ≫= f) = f a.
Proof. reflexivity. Qed.

Lemma bind_Raise {A B} (f : A -> result B) (e : exn) :
  (Raise e ≫= f) = Raise e.
Proof. reflexivity. Qed.

Lemma bind_Ok_inv {A B} (f : A -> result B) (m : result A) (b : B) :
  (m ≫= f) = Ok b -> exists a, m = Ok a /\ f a = Ok b.
Proof. destruct m as [a|e]; [eauto | discriminate]. Qed.

(** ** Keys and dicts *)

Lemma key_eqb_norm (k1 k2 : key) :
  key_eqb k1 k2 = true <-> key_norm k1 = key_norm k2.
Proof.
  destruct k1 as [|b1|n1|s1], k2 as [|b2|n2|s2]; simpl;
    try (split; [discriminate | discriminate]);
    try (split; [reflexivity | reflexivity]);
    rewrite ?Z.eqb_eq, ?String.eqb_eq; split; congruence.
Qed.

Lemma key_eqb_refl (k : key) : key_eqb k k = true.
Proof. by apply key_eqb_norm. Qed.

Lemma key_eqb_sym (k1 k2 : key) : key_eqb k1 k2 = key_eqb k2 k1.
Proof.
  destruct (key_eqb k1 k2) eqn:H1, (key_eqb k2 k1) eqn:H2; try done.
  - apply key_eqb_norm in H1. symmetry in H1. apply key_eqb_norm in H1. congruence.
  - apply key_eqb_norm in H2. symmetry in H2. apply key_eqb_norm in H2. congruence.
Qed.

Lemma key_eqb_trans_l (k1 k2 k3 : key) :
  key_eqb k1 k2 = true -> key_eqb k1 k3 = key_eqb k2 k3.
Proof.
  intros H12%key_eqb_norm.
  destruct (key_eqb k1 k3) eqn:H13, (key_eqb k2 k3) eqn:H23; try done.
  - apply key_eqb_norm in H13.
    assert (key_eqb k2 k3 = true) by (apply key_eqb_norm; congruence). congruence.
  - apply key_eqb_norm in H23.
    assert (key_eqb k1 k3 = true) by (apply key_eqb_norm; congruence). congruence.
Qed.

Lemma key_eqb_str (s1 s2 : string) :
  key_eqb (KStr s1) (KStr s2) = true <-> s1 = s2.
Proof. simpl. apply String.eqb_eq. Qed.

Lemma key_eqb_str_l (s : string) (k : key) :
  key_eqb (KStr s) k = true <-> k = KStr s.
Proof.
  destruct k; simpl; try (split; [discriminate | discriminate]).
  rewrite String.eqb_eq. split; congruence.
Qed.

Lemma dict_get_set (d : dict) (k p : key) (x : value) :
  dict_get (dict_set d k x) p = if key_eqb k p then Some x else dict_get d p.
Proof.
  induction d as [|[k' x'] d IH]; simpl.
  - reflexivity.
  - destruct (key_eqb k' k) eqn:Hk; simpl.
    + rewrite <- (key_eqb_trans_l _ _ p Hk). by destruct (key_eqb k' p).
    + rewrite IH. destruct (key_eqb k' p) eqn:Hp; [|done].
      destruct (key_eqb k p) eqn:Hkp; [|done].
      rewrite (key_eqb_trans_l _ _ k Hp), key_eqb_sym, Hkp in Hk. discriminate.
Qed.

Lemma dict_get_set_eq (d : dict) (k : key) (x : value) :
  dict_get (dict_set d k x) k = Some x.
Proof. by rewrite dict_get_set, key_eqb_refl. Qed.

Lemma dict_get_set_str_ne (d : dict) (s1 s2 : string) (x : value) :
  s1 <> s2 -> dict_get (dict_set d (KStr s1) x) (KStr s2) = dict_get d (KStr s2).
Proof.
  intros Hne. rewrite dict_get_set.
  destruct (key_eqb (KStr s1) (KStr s2)) eqn:H; [|done].
  by apply key_eqb_str in H.
Qed.

(** A key is in [dict_keys] up to [key_eqb] exactly when it has a value. *)
Lemma dict_get_None (d : dict) (p : key) :
  dict_get d p = None <-> forall k, k ∈ dict_keys d -> key_eqb k p = false.
Proof.
  unfold dict_keys. induction d as [|[k x] d IH]; simpl.
  - split; [|done]. intros _ k Hk. by apply elem_of_nil in Hk.
  - destruct (key_eqb k p) eqn:Hk.
    + split; [discriminate|]. intros H. rewrite H in Hk; [done | left].
    + rewrite IH. split.
      * intros H k' [->|Hk']%elem_of_cons; auto.
      * intros H k' Hk'. apply H. by right.
Qed.

Lemma dict_keys_set (d : dict) (k : key) (x : value) :
  dict_keys (dict_set d k x) =
  match dict_get d k with
  | Some _ => dict_keys d
  | None => dict_keys d ++ [k]
  end.
Proof.
  unfold dict_keys. induction d as [|[k' x'] d IH]; simpl; [done|].
  destruct (key_eqb k' k); [done|].
  rewrite fmap_cons, IH. by destruct (dict_get d k).
Qed.

(** ** The rows of the spec *)

Section SpecRow.

Variable b : dict.

Local Abbreviation fill := (fill_row b).

Lemma fill_get_other (row : dict) (vars : list string) (p : key) :
  (forall v, v ∈ vars -> p <> KStr v) ->
  dict_get (fill row vars) p = dict_get row p.
Proof.
  revert row. induction vars as [|a vars IH]; intros row Hp; simpl; [done|].
  rewrite IH by (intros v Hv; apply Hp; by right).
  rewrite dict_get_set.
  destruct (key_eqb (KStr a) p) eqn:E; [|done].
  apply key_eqb_str_l in E. destruct (Hp a); [left | done].
Qed.

Lemma fill_get (row : dict) (vars : list string) (v : string) :
  v ∈ vars -> dict_get (fill row vars) (KStr v) = Some (spec_cell b v).
Proof.
  revert row. induction vars as [|a vars IH]; intros row Hv; simpl.
  - by apply elem_of_nil in Hv.
  - destruct (decide (v ∈ vars)) as [Hin|Hout]; [by apply IH|].
    apply elem_of_cons in Hv as [->|Hv]; [|done].
    rewrite fill_get_other by (intros v Hv [= ->]; done).
    apply dict_get_set_eq.
Qed.

Lemma fill_keys_elem (row : dict) (vars : list string) (k : key) :
  k ∈ dict_keys (fill row vars) <->
  k ∈ dict_keys row \/ exists v, v ∈ vars /\ k = KStr v.
Proof.
  revert row. induction vars as [|a vars IH]; intros row; simpl.
  - split; [by left|]. intros [H|(v & Hv & _)]; [done|]. by apply elem_of_nil in Hv.
  - rewrite IH, dict_keys_set. split.
    + intros [H|(v & Hv & ->)].
      * destruct (dict_get row (KStr a)); [by left|].
        apply elem_of_app in H as [H|H]; [by left|].
        apply list_elem_of_singleton in H as ->. right. exists a. split; [left | done].
      * right. exists v. split; [by right | done].
    + intros [H|(v & Hv & ->)].
      * left. destruct (dict_get row (KStr a)); [done|]. apply elem_of_app. by left.
      * apply elem_of_cons in Hv as [->|Hv]; [|right; eauto].
        left. destruct (dict_get row (KStr a)) eqn:E.
        -- destruct (decide (KStr a ∈ dict_keys row)) as [|Hn]; [done|].
           assert (dict_get row (KStr a) = None); [|congruence].
           apply dict_get_None. intros k Hk.
           destruct (key_eqb k (KStr a)) eqn:Ek; [|done].
           rewrite key_eqb_sym in Ek. apply key_eqb_str_l in Ek. by subst.
        -- apply elem_of_app. right. by apply list_elem_of_singleton.
Qed.

Lemma fill_keys_NoDup (row : dict) (vars : list string) :
  NoDup (dict_keys row) -> NoDup (dict_keys (fill row vars)).
Proof.
  revert row. induction vars as [|a vars IH]; intros row Hrow; simpl; [done|].
  apply IH. rewrite dict_keys_set.
  destruct (dict_get row (KStr a)) eqn:E; [done|].
  apply NoDup_app. split; [done|]. split; [|apply NoDup_singleton].
  intros k Hk ->%list_elem_of_singleton.
  eapply dict_get_None in E; [|done]. by rewrite key_eqb_refl in E.
Qed.

Lemma fill_keys_distinct (row : dict) (vars : list string) :
  NoDup vars ->
  (forall v, v ∈ vars -> dict_get row (KStr v) = None) ->
  dict_keys (fill row vars) = dict_keys row ++ (KStr <$> vars).
Proof.
  revert row. induction vars as [|a vars IH]; intros row Hnd Hrow; simpl.
  - by rewrite app_nil_r.
  - apply NoDup_cons in Hnd as [Ha Hnd].
    rewrite IH; [|done|].
    + rewrite dict_keys_set, Hrow by left. by rewrite <- app_assoc.
    + intros v Hv. rewrite dict_get_set_str_ne by (intros ->; done).
      apply Hrow. by right.
Qed.

End SpecRow.

Lemma spec_row_get (vars : list string) (b : dict) (v : string) :
  v ∈ vars -> dict_get (spec_row vars b) (KStr v) = Some (spec_cell b v).
Proof. apply fill_get. Qed.

Lemma spec_row_keys_elem (vars : list string) (b : dict) (k : key) :
  k ∈ dict_keys (spec_row vars b) <-> exists v, v ∈ vars /\ k = KStr v.
Proof.
  unfold spec_row. rewrite fill_keys_elem. split; [|by right].
  intros [H|H]; [|done]. by apply elem_of_nil in H.
Qed.

Lemma spec_row_keys_NoDup (vars : list string) (b : dict) :
  NoDup (dict_keys (spec_row vars b)).
Proof. apply fill_keys_NoDup. constructor. Qed.

Lemma spec_row_keys_distinct (vars : list string) (b : dict) :
  NoDup vars -> dict_keys (spec_row vars b) = KStr <$> vars.
Proof. intros H. unfold spec_row. by rewrite fill_keys_distinct. Qed.

(** A row has one key for each of the different names in [vars]. *)
Lemma spec_row_length (vars : list string) (b : dict) :
  length (spec_row vars b) = length (remove_dups vars).
Proof.
  transitivity (length (dict_keys (spec_row vars b))).
  { unfold dict_keys. by rewrite length_fmap. }
  transitivity (length (KStr <$> remove_dups vars)); [|by rewrite length_fmap].
  apply Permutation_length, NoDup_Permutation.
  - apply spec_row_keys_NoDup.
  - apply NoDup_fmap_2; [|apply NoDup_remove_dups]. by intros ?? [= ->].
  - intros k. rewrite spec_row_keys_elem, list_elem_of_fmap.
    split; intros (v & H1 & H2).
    + exists v. split; [done|]. by apply elem_of_remove_dups.
    + exists v. split; [|done]. by apply elem_of_remove_dups.
Qed.

(** ** Subscripts and loops *)

Lemma getitem_str (x : value) (k : string) (v : value) :
  getitem x (VStr k) = Ok v <-> member x k = Some v.
Proof.
  destruct x as [| | |s|l|d]; simpl; try (split; discriminate).
  destruct (dict_get d (KStr k)); split; congruence.
Qed.

Lemma getitem_str_exn (x : value) (k : string) (e : exn) :
  getitem x (VStr k) = Raise e -> e = KeyError \/ e = TypeError.
Proof.
  destruct x as [| | |s|l|d]; simpl; try (intros [= <-]; by right).
  destruct (dict_get d (KStr k)); [discriminate|]. intros [= <-]. by left.
Qed.

Lemma getitem_member2 (j : value) (k1 k2 : string) (v : value) :
  member2 j k1 k2 = Some v ->
  (x ← getitem j (VStr k1); getitem x (VStr k2)) = Ok v.
Proof.
  unfold member2. destruct (member j k1) as [x|] eqn:E; [|discriminate].
  simpl. intros H. apply getitem_str in E, H. by rewrite E.
Qed.

Lemma getitem_member2_inv (j : value) (k1 k2 : string) (v : value) :
  (x ← getitem j (VStr k1); getitem x (VStr k2)) = Ok v ->
  member2 j k1 k2 = Some v.
Proof.
  intros (x & H1 & H2)%bind_Ok_inv. apply getitem_str in H1, H2.
  unfold member2. by rewrite H1.
Qed.

Lemma head_vars_Ok_inv (j : value) (vs : list value) :
  head_vars j = Ok vs -> exists x, member2 j "head" "vars" = Some x.
Proof.
  unfold head_vars. intros (h & H1 & (x & H2 & _)%bind_Ok_inv)%bind_Ok_inv.
  exists x. apply getitem_member2_inv. by rewrite H1.
Qed.

Lemma sparql_bindings_Ok_inv (j : value) (bs : list value) :
  sparql_bindings j = Ok bs -> exists x, member2 j "results" "bindings" = Some x.
Proof.
  unfold sparql_bindings.
  intros (h & H1 & (x & H2 & _)%bind_Ok_inv)%bind_Ok_inv.
  exists x. apply getitem_member2_inv. by rewrite H1.
Qed.

Lemma head_vars_shape (j : value) (vars : list string) (bs : list dict) :
  sparql_shape j vars bs -> head_vars j = Ok (VStr <$> vars).
Proof.
  intros [H _]. unfold member2 in H.
  destruct (member j "head") as [h|] eqn:E; [|discriminate]. simpl in H.
  unfold head_vars. apply getitem_str in E, H. by rewrite E, bind_Ok, H.
Qed.

Lemma sparql_bindings_shape (j : value) (vars : list string) (bs : list dict) :
  sparql_shape j vars bs -> sparql_bindings j = Ok (VDict <$> bs).
Proof.
  intros [_ H]. unfold member2 in H.
  destruct (member j "results") as [h|] eqn:E; [|discriminate]. simpl in H.
  unfold sparql_bindings. apply getitem_str in E, H. by rewrite E, bind_Ok, H.
Qed.

(** A loop that appends one object per item is a [map_result]. *)
Lemma for_each_append {A B} (f : A -> result B) (acc : list B) (l : list A) :
  for_each (fun acc a => b ← f a; Ok (acc ++ [b])) acc l =
  (bs ← map_result f l; Ok (acc ++ bs)).
Proof.
  revert acc. induction l as [|a l IH]; intros acc; simpl.
  - by rewrite app_nil_r.
  - destruct (f a) as [b|e]; simpl; [|done].
    rewrite IH. destruct (map_result f l) as [bs|e]; simpl; [|done].
    by rewrite <- app_assoc.
Qed.

Lemma map_result_total {A B} (f : A -> result B) (g : A -> B) (l : list A) :
  (forall a, a ∈ l -> f a = Ok (g a)) -> map_result f l = Ok (g <$> l).
Proof.
  induction l as [|a l IH]; intros H; simpl; [done|].
  rewrite H by left. simpl. rewrite IH; [done|]. intros a' Ha'. apply H. by right.
Qed.

Lemma map_result_length {A B} (f : A -> result B) (l : list A) (bs : list B) :
  map_result f l = Ok bs -> length bs = length l.
Proof.
  revert bs. induction l as [|a l IH]; intros bs; simpl.
  - by intros [= <-].
  - destruct (f a) as [b|e]; simpl; [|discriminate].
    destruct (map_result f l) as [bs'|e]; simpl; [|discriminate].
    intros [= <-]. simpl. f_equal. by apply IH.
Qed.

(** When one item raises [e] and no item can raise anything else, the
    loop raises [e]. *)
Lemma map_result_raises {A B} (f : A -> result B) (l : list A) (e : exn) :
  (forall a e', a ∈ l -> f a = Raise e' -> e' = e) ->
  (exists a, a ∈ l /\ f a = Raise e) ->
  map_result f l = Raise e.
Proof.
  induction l as [|a l IH]; intros Hall (a0 & Hin & Ha0); simpl.
  - by apply elem_of_nil in Hin.
  - destruct (f a) as [b|e'] eqn:E; simpl.
    + rewrite IH; [done| |].
      * intros a' e' Ha'. apply Hall. by right.
      * apply elem_of_cons in Hin as [->|Hin]; [congruence|eauto].
    + f_equal. eapply Hall; [left | done].
Qed.

Lemma columns_loop (acc : list value) (vs : list value) :
  for_each (fun columns var => Ok (columns ++ [make_column var])) acc vs =
  Ok (acc ++ (make_column <$> vs)).
Proof.
  revert acc. induction vs as [|v vs IH]; intros acc; simpl.
  - by rewrite app_nil_r.
  - rewrite IH. by rewrite <- app_assoc.
Qed.

(** ** One cell, one row *)

(** On a binding that is an object and a variable that is a string, the
    [try] statement either sets the cell the spec describes or raises
    [TypeError]; it raises when the binding gives the variable a value
    that is not an object. *)
Lemma set_cell_object (row b : dict) (v : string) :
  (forall x, dict_get b (KStr v) = Some x -> exists descriptor, x = VDict descriptor) ->
  set_cell row (VDict b) (VStr v) = Ok (dict_set row (KStr v) (spec_cell b v)).
Proof.
  intros Hobj. unfold set_cell, assign_cell, spec_cell. simpl.
  destruct (dict_get b (KStr v)) as [x|] eqn:E; simpl; [|done].
  destruct (Hobj x eq_refl) as [descriptor ->]. simpl.
  by destruct (dict_get descriptor (KStr "value")).
Qed.

Lemma set_cell_not_object (row b : dict) (v : string) (x : value) :
  dict_get b (KStr v) = Some x ->
  (forall descriptor, x <> VDict descriptor) ->
  set_cell row (VDict b) (VStr v) = Raise TypeError.
Proof.
  intros E Hx. unfold set_cell, assign_cell. simpl. rewrite E. simpl.
  destruct x as [| | |s|l|d]; try done. by destruct (Hx d).
Qed.

Lemma set_cell_exn (row b : dict) (v : string) (e : exn) :
  set_cell row (VDict b) (VStr v) = Raise e -> e = TypeError.
Proof.
  unfold set_cell, assign_cell. simpl.
  destruct (dict_get b (KStr v)) as [x|] eqn:E; simpl; [|discriminate].
  destruct x as [| | |s|l|d]; simpl; try (by intros [= <-]).
  destruct (dict_get d (KStr "value")); simpl; discriminate.
Qed.

Lemma row_loop_objects (b : dict) (vars : list string) (row : dict) :
  (forall v x, v ∈ vars -> dict_get b (KStr v) = Some x ->
               exists descriptor, x = VDict descriptor) ->
  for_each (fun row var => set_cell row (VDict b) var) row (VStr <$> vars) =
  Ok (fill_row b row vars).
Proof.
  revert row. induction vars as [|v vars IH]; intros row Hobj; simpl; [done|].
  rewrite set_cell_object by (intros x; apply Hobj; left). simpl.
  apply IH. intros v' x Hv'. apply Hobj. by right.
Qed.

Lemma row_loop_exn (b : dict) (vars : list string) (row : dict) (e : exn) :
  for_each (fun row var => set_cell row (VDict b) var) row (VStr <$> vars) =
  Raise e -> e = TypeError.
Proof.
  revert row. induction vars as [|v vars IH]; intros row; simpl; [discriminate|].
  destruct (set_cell row (VDict b) (VStr v)) as [row'|e'] eqn:E; simpl.
  - apply IH.
  - intros [= <-]. by apply set_cell_exn in E.
Qed.

Lemma row_loop_raises (b : dict) (vars : list string) (row : dict)
      (v : string) (x : value) :
  v ∈ vars -> dict_get b (KStr v) = Some x ->
  (forall descriptor, x <> VDict descriptor) ->
  for_each (fun row var => set_cell row (VDict b) var) row (VStr <$> vars) =
  Raise TypeError.
Proof.
  intros Hv E Hx. revert row.
  induction vars as [|a vars IH]; intros row; simpl.
  - by apply elem_of_nil in Hv.
  - destruct (set_cell row (VDict b) (VStr a)) as [row'|e'] eqn:Ea; simpl.
    + apply elem_of_cons in Hv as [->|Hv]; [|by apply IH].
      by rewrite (set_cell_not_object _ _ _ x) in Ea.
    + f_equal. by apply set_cell_exn in Ea.
Qed.

(** ** The translation of a parsed result *)

(** [transform] as a pipeline: the bindings, one row per binding, then
    the variables and one column per variable. *)
Lemma transform_eq (j : value) :
  transform j =
  (bindings ← sparql_bindings j;
   rows ← map_result (make_row j) bindings;
   vars ← head_vars j;
   Ok (redash_result (make_column <$> vars) rows)).
Proof.
  unfold transform. destruct (sparql_bindings j) as [bindings|e]; simpl; [|done].
  rewrite for_each_append.
  destruct (map_result (make_row j) bindings) as [rows|e]; simpl; [|done].
  destruct (head_vars j) as [vars|e]; simpl; [|done].
  by rewrite columns_loop.
Qed.

Lemma make_column_str (vars : list string) :
  make_column <$> (VStr <$> vars) = spec_column <$> vars.
Proof. by rewrite <- list_fmap_compose. Qed.

Lemma bound_to_objects_elem (vars : list string) (bs : list dict) (b : dict) :
  bound_to_objects vars bs -> b ∈ bs ->
  forall v x, v ∈ vars -> dict_get b (KStr v) = Some x ->
              exists descriptor, x = VDict descriptor.
Proof. intros H Hb v x Hv E. by apply (H b v x). Qed.

Lemma transform_valid (j : value) (vars : list string) (bs : list dict) :
  sparql_shape j vars bs -> bound_to_objects vars bs ->
  transform j =
  Ok (redash_result (spec_column <$> vars)
                    ((fun b => VDict (spec_row vars b)) <$> bs)).
Proof.
  intros Hshape Hobj. rewrite transform_eq.
  rewrite (sparql_bindings_shape _ _ _ Hshape), bind_Ok.
  rewrite (head_vars_shape _ _ _ Hshape).
  rewrite (map_result_total _ (fun x => match x with
                                        | VDict b => VDict (spec_row vars b)
                                        | _ => x
                                        end)).
  - simpl. by rewrite make_column_str, <- list_fmap_compose.
  - intros x (b & -> & Hb)%list_elem_of_fmap. unfold make_row.
    rewrite (head_vars_shape _ _ _ Hshape), bind_Ok.
    by rewrite row_loop_objects by by apply (bound_to_objects_elem vars bs).
Qed.

(** Whenever [transform] returns on a well-shaped input, the columns
    are those of [head.vars] and there is one row per binding. *)
Lemma transform_shape_Ok (j : value) (vars : list string) (bs : list dict)
      (out : value) :
  sparql_shape j vars bs -> transform j = Ok out ->
  exists rows, out = redash_result (spec_column <$> vars) rows /\
               length rows = length bs.
Proof.
  intros Hshape. rewrite transform_eq.
  rewrite (sparql_bindings_shape _ _ _ Hshape), bind_Ok.
  rewrite (head_vars_shape _ _ _ Hshape).
  destruct (map_result _ _) as [rows|e] eqn:E; simpl; [|discriminate].
  intros [= <-]. exists rows. rewrite make_column_str. split; [done|].
  apply map_result_length in E. by rewrite length_fmap in E.
Qed.

Lemma make_row_exn (j : value) (vars : list string) (bs : list dict)
      (b : dict) (e : exn) :
  sparql_shape j vars bs -> make_row j (VDict b) = Raise e -> e = TypeError.
Proof.
  intros Hshape. unfold make_row.
  rewrite (head_vars_shape _ _ _ Hshape), bind_Ok.
  destruct (for_each _ _ _) as [row|e'] eqn:E; simpl; [discriminate|].
  intros [= <-]. by apply row_loop_exn in E.
Qed.

Lemma transform_not_object (j : value) (vars : list string) (bs : list dict)
      (b : dict) (v : string) (x : value) :
  sparql_shape j vars bs ->
  b ∈ bs -> v ∈ vars -> dict_get b (KStr v) = Some x ->
  (forall descriptor, x <> VDict descriptor) ->
  transform j = Raise TypeError.
Proof.
  intros Hshape Hb Hv E Hx. rewrite transform_eq.
  rewrite (sparql_bindings_shape _ _ _ Hshape), bind_Ok.
  rewrite (map_result_raises _ _ TypeError); [done| |].
  - intros a e' (b' & -> & _)%list_elem_of_fmap. by apply make_row_exn with vars bs.
  - exists (VDict b). split; [by apply list_elem_of_fmap_2|].
    unfold make_row. rewrite (head_vars_shape _ _ _ Hshape), bind_Ok.
    by rewrite (row_loop_raises b vars [] v x).
Qed.

Lemma sparql_bindings_exn (j : value) (e : exn) :
  sparql_bindings j = Raise e -> e = KeyError \/ e = TypeError.
Proof.
  unfold sparql_bindings.
  destruct (getitem j (VStr "results")) as [r|e1] eqn:E1; simpl;
    [|intros [= <-]; by apply getitem_str_exn in E1].
  destruct (getitem r (VStr "bindings")) as [x|e2] eqn:E2; simpl;
    [|intros [= <-]; by apply getitem_str_exn in E2].
  destruct x; simpl; try discriminate; intros [= <-]; by right.
Qed.

Lemma head_vars_missing (j : value) :
  member2 j "head" "vars" = None ->
  exists e, head_vars j = Raise e /\ (e = KeyError \/ e = TypeError).
Proof.
  intros Hmiss. unfold head_vars.
  destruct (getitem j (VStr "head")) as [h|e1] eqn:E1; simpl;
    [|exists e1; split; [done | by apply getitem_str_exn in E1]].
  destruct (getitem h (VStr "vars")) as [x|e2] eqn:E2; simpl;
    [|exists e2; split; [done | by apply getitem_str_exn in E2]].
  apply getitem_str in E1, E2. unfold member2 in Hmiss.
  rewrite E1 in Hmiss. simpl in Hmiss. congruence.
Qed.

(** Without [head.vars] or without [results.bindings], [transform]
    raises at a subscript or at the start of a loop. *)
Lemma transform_missing (j : value) :
  member2 j "head" "vars" = None \/ member2 j "results" "bindings" = None ->
  exists e, transform j = Raise e /\ (e = KeyError \/ e = TypeError).
Proof.
  intros Hmiss. rewrite transform_eq.
  destruct (sparql_bindings j) as [bindings|e] eqn:Eb; simpl;
    [|exists e; split; [done | by apply sparql_bindings_exn in Eb]].
  destruct Hmiss as [Hmiss|Hmiss];
    [|apply sparql_bindings_Ok_inv in Eb as [x Hx]; congruence].
  destruct (head_vars_missing j Hmiss) as (e & He & Hkind).
  exists e. split; [|done].
  destruct bindings as [|r bindings]; simpl; [rewrite He; reflexivity|].
  assert (make_row j r = Raise e) as ->
      by (unfold make_row; rewrite He; reflexivity).
  reflexivity.
Qed.

(** ** The translator *)

Section Translator.

Variable json_loads : string -> result value.
Variable json_dumps : value -> string.

Local Abbreviation translate := (_transform_sparql_results json_loads json_dumps).

(** One call of the translator: the result is a function of the input
    text, and the world gets one more log record. *)
Lemma translate_run (s : string) (w : World) :
  translate s w =
  ((j ← json_loads s; data ← transform j; Ok (json_dumps data)),
   MkWorld (environ w) (log w ++ [LogInfo "results are: {}" [s]])).
Proof.
  unfold _transform_sparql_results, lift, logger_info.
  unfold mbind, M_bind, mret, M_ret. simpl.
  destruct (json_loads s) as [j|e]; simpl; [|reflexivity].
  destruct (transform j); reflexivity.
Qed.

End Translator.

Lemma remove_dups_distinct (l : list string) : NoDup l -> remove_dups l = l.
Proof.
  induction 1 as [|x l Hx Hl IH]; simpl; [done|].
  destruct (decide_rel elem_of x l); [done | by rewrite IH].
Qed.

Section TranslatorClaims.

Variable json_loads : string -> result value.
Variable json_dumps : value -> string.

Local Abbreviation translate := (_transform_sparql_results json_loads json_dumps).

(** C1 (as amended). For every input whose JSON parse contains
    [head.vars], an array of strings, and [results.bindings], an array
    of objects, and in which every value a binding gives to a variable
    of [head.vars] is itself an object, the translator returns the
    serialization of a result with one row per binding [b], in the order
    of the bindings. In the row of [b], [row[v]] was set for each [v] of
    [head.vars] in order; it is [b[v].value] when [v] is a key of [b] and
    the descriptor has a [value] field, and the empty string otherwise;
    and when the names of [head.vars] are distinct the keys of the row
    are [head.vars] in order. *)
Theorem translator_rows (s : string) (j : value) (vars : list string)
        (bs : list dict) (w : World) :
  json_loads s = Ok j ->
  sparql_shape j vars bs ->
  bound_to_objects vars bs ->
  fst (translate s w) =
    Ok (json_dumps (redash_result (spec_column <$> vars)
                                  ((fun b => VDict (spec_row vars b)) <$> bs))) /\
  (forall b v, v ∈ vars ->
     dict_get (spec_row vars b) (KStr v) =
       Some (match dict_get b (KStr v) with
             | Some (VDict descriptor) =>
                 match dict_get descriptor (KStr "value") with
                 | Some x => x
                 | None => VStr EmptyString
                 end
             | _ => VStr EmptyString
             end)) /\
  (NoDup vars -> forall b, dict_keys (spec_row vars b) = KStr <$> vars).
Proof.
  intros Hload Hshape Hobj. split; [|split].
  - rewrite translate_run. simpl. rewrite Hload, bind_Ok.
    by rewrite (transform_valid j vars bs).
  - intros b v Hv. by rewrite spec_row_get.
  - intros Hnd b. by apply spec_row_keys_distinct.
Qed.

(** C2. For every valid input (well-shaped, descriptors are objects)
    the translator returns the serialization of a result whose
    [columns] array has one entry [{name: v, friendly_name: v, type:
    "string"}] per variable [v] of [head.vars], in the order of
    [head.vars], whatever the bindings hold; and whenever the
    translation of a well-shaped input returns at all, its columns are
    these. *)
Theorem translator_columns (s : string) (j : value) (vars : list string)
        (bs : list dict) (w : World) :
  json_loads s = Ok j ->
  sparql_shape j vars bs ->
  (bound_to_objects vars bs ->
   exists rows,
     fst (translate s w) =
       Ok (json_dumps
             (VDict [(KStr "columns",
                      VList ((fun v => VDict [(KStr "name", VStr v);
                                              (KStr "friendly_name", VStr v);
                                              (KStr "type", VStr "string")])
                               <$> vars));
                     (KStr "rows", VList rows)]))) /\
  (forall out, transform j = Ok out ->
     member out "columns" = Some (VList (spec_column <$> vars))).
Proof.
  intros Hload Hshape. split.
  - intros Hobj. eexists. rewrite translate_run. simpl. rewrite Hload, bind_Ok.
    rewrite (transform_valid j vars bs) by done. reflexivity.
  - intros out Hout.
    by destruct (transform_shape_Ok j vars bs out) as (rows & -> & _).
Qed.

(** C3 (as amended). For every valid input the translation returns
    [columns] and [rows] with [columns.length = head.vars.length] and
    [rows.length = results.bindings.length], and for every [i] the row
    [rows[i]] is a dict whose keys are exactly the names of [head.vars],
    each once: it has as many keys as [head.vars] has different names,
    which is [head.vars.length] when the names are distinct. A variable
    that is not a key of [bindings[i]] is in the row with the empty
    string. *)
Theorem translator_row_keys (j : value) (vars : list string) (bs : list dict) :
  sparql_shape j vars bs ->
  bound_to_objects vars bs ->
  exists columns rows,
    transform j = Ok (redash_result columns rows) /\
    length columns = length vars /\
    length rows = length bs /\
    forall i b, bs !! i = Some b ->
      exists row,
        rows !! i = Some (VDict row) /\
        (forall k, k ∈ dict_keys row <-> exists v, v ∈ vars /\ k = KStr v) /\
        NoDup (dict_keys row) /\
        length row = length (remove_dups vars) /\
        (NoDup vars -> length row = length vars) /\
        (forall v, v ∈ vars -> dict_get b (KStr v) = None ->
                   dict_get row (KStr v) = Some (VStr EmptyString)).
Proof.
  intros Hshape Hobj. do 2 eexists.
  split; [by apply transform_valid|].
  rewrite !length_fmap. do 2 (split; [done|]).
  intros i b Hb. exists (spec_row vars b).
  split; [by rewrite list_lookup_fmap, Hb|].
  split; [apply spec_row_keys_elem|].
  split; [apply spec_row_keys_NoDup|].
  split; [apply spec_row_length|].
  split.
  - intros Hnd. rewrite spec_row_length. by rewrite remove_dups_distinct.
  - intros v Hv Hnone. rewrite spec_row_get by done. unfold spec_cell.
    by rewrite Hnone.
Qed.

(** C4. When [json_loads] reads the text of scenario 1 as the object it
    denotes, the translator returns the serialization of
    [{columns: [{name: noop, friendly_name: noop, type: string}],
      rows: [{noop: noop}]}]. *)
Theorem translator_scenario_1 (w : World) :
  json_loads scenario_1_text = Ok scenario_1_parsed ->
  fst (translate scenario_1_text w) = Ok (json_dumps scenario_1_expected).
Proof.
  intros Hload. rewrite translate_run. simpl. by rewrite Hload.
Qed.

(** C5. If the input text is not valid JSON, so that [json_loads]
    raises, or if the parsed value has no [head.vars] or no
    [results.bindings] (a key is missing on the way, or the value that
    should hold it is not an object), the translator raises and returns
    no translated value: the exception of [json_loads] in the first
    case, [KeyError] or [TypeError] in the second. *)
Theorem translator_malformed_input (s : string) (w : World) :
  (exists e, json_loads s = Raise e) \/
  (exists j, json_loads s = Ok j /\
             (member2 j "head" "vars" = None \/
              member2 j "results" "bindings" = None)) ->
  exists e,
    fst (translate s w) = Raise e /\
    (json_loads s = Raise e \/ e = KeyError \/ e = TypeError).
Proof.
  intros [[e He]|(j & Hj & Hmiss)]; rewrite translate_run; simpl.
  - exists e. rewrite He. split; [done | by left].
  - destruct (transform_missing j Hmiss) as (e & He & Hkind).
    exists e. rewrite Hj, bind_Ok, He. split; [done | by right].
Qed.

(** C8. The translator is deterministic and safe to repeat: its result
    depends on the input text alone, not on the world it runs in, so
    that a second call on the same text, run after the first, returns
    what the first returned; and a call leaves the environment as it
    was, its one effect being a record in the log. (The objects it
    builds are its own; it assigns to nothing it was given.) *)
Theorem translator_deterministic (s : string) (w w' : World) :
  fst (translate s w) = fst (translate s w') /\
  fst (translate s (snd (translate s w))) = fst (translate s w) /\
  environ (snd (translate s w)) = environ w /\
  log (snd (translate s w)) = log w ++ [LogInfo "results are: {}" [s]].
Proof. by rewrite !translate_run. Qed.

(** C9. The lenient handling covers missing keys only: on a well-shaped
    input in which some binding gives a variable of [head.vars] a value
    that is not an object (a string, a number, a list, ...), the
    translator raises [TypeError], which the handler of [KeyError] does
    not catch, and no row is returned. *)
Theorem translator_type_error (s : string) (j : value) (vars : list string)
        (bs : list dict) (b : dict) (v : string) (x : value) (w : World) :
  json_loads s = Ok j ->
  sparql_shape j vars bs ->
  b ∈ bs -> v ∈ vars -> dict_get b (KStr v) = Some x ->
  (forall descriptor, x <> VDict descriptor) ->
  fst (translate s w) = Raise TypeError.
Proof.
  intros Hload Hshape Hb Hv E Hx. rewrite translate_run. simpl.
  by rewrite Hload, bind_Ok, (transform_not_object j vars bs b v x).
Qed.

(** C10. Bound values are copied, not converted: on a valid input, if
    binding [i] gives variable [v] a descriptor whose [value] field
    holds [x], then row [i] of the result has [x] itself at [v],
    whatever kind of value [x] is, while the column of [v] still
    declares the type ["string"]. *)
Theorem translator_copies_value (j : value) (vars : list string)
        (bs : list dict) (i : nat) (b descriptor : dict) (v : string)
        (x : value) :
  sparql_shape j vars bs ->
  bound_to_objects vars bs ->
  bs !! i = Some b -> v ∈ vars ->
  dict_get b (KStr v) = Some (VDict descriptor) ->
  dict_get descriptor (KStr "value") = Some x ->
  exists columns rows row column,
    transform j = Ok (redash_result columns rows) /\
    rows !! i = Some (VDict row) /\
    dict_get row (KStr v) = Some x /\
    column ∈ columns /\
    member column "name" = Some (VStr v) /\
    member column "type" = Some (VStr "string").
Proof.
  intros Hshape Hobj Hb Hv Hd Hx.
  exists (spec_column <$> vars), ((fun b => VDict (spec_row vars b)) <$> bs),
         (spec_row vars b), (spec_column v).
  split; [by apply transform_valid|].
  split; [by rewrite list_lookup_fmap, Hb|].
  split; [rewrite spec_row_get by done; unfold spec_cell; by rewrite Hd, Hx|].
  split; [by apply list_elem_of_fmap_2|].
  split; reflexivity.
Qed.

End TranslatorClaims.

(** ** Staging the configuration *)

Lemma world_eta (w : World) : MkWorld (environ w) (log w) = w.
Proof. by destruct w. Qed.

(** One turn of the loop of [_setup_environment]. *)
Lemma stage_key_run (configuration : gmap string value) (k : string) (w : World) :
  stage_key configuration k w =
  match configuration_get configuration k with
  | VNone => (Ok tt, MkWorld (delete k (environ w)) (log w))
  | VStr s =>
      if has_nul s then (Raise ValueError, MkWorld (delete k (environ w)) (log w))
      else (Ok tt, MkWorld (<[k:=s]> (delete k (environ w)))
                           (log w ++ [staging_record k s]))
  | _ => (Raise TypeError, MkWorld (delete k (environ w)) (log w))
  end.
Proof.
  unfold stage_key, mbind, M_bind, mret, M_ret, environ_contains, environ_pop,
    environ_setitem, environ_getitem, logger_info, staging_record.
  destruct (environ w !! k) as [old|] eqn:E; simpl; rewrite ?E.
  - destruct (configuration_get configuration k) as [| | |s|l|d]; simpl;
      try reflexivity.
    destruct (has_nul s); [reflexivity|].
    destruct (bool_decide (k ∈ KNOWN_SECRET_KEYS)); simpl; [reflexivity|].
    by rewrite lookup_insert_eq.
  - rewrite (delete_id _ _ E).
    destruct (configuration_get configuration k) as [| | |s|l|d]; simpl;
      rewrite ?world_eta; try reflexivity.
    destruct (has_nul s); [reflexivity|].
    destruct (bool_decide (k ∈ KNOWN_SECRET_KEYS)); simpl; [reflexivity|].
    by rewrite lookup_insert_eq.
Qed.

Lemma stage_key_Ok (configuration : gmap string value) (k : string)
      (w w' : World) :
  stage_key configuration k w = (Ok tt, w') ->
  stageable configuration k /\
  environ w' = match staged configuration k with
               | Some s => <[k:=s]> (environ w)
               | None => delete k (environ w)
               end.
Proof.
  rewrite stage_key_run. unfold stageable, staged.
  destruct (configuration_get configuration k) as [| | |s|l|d]; try discriminate.
  - intros [= <-]. split; [by left | done].
  - destruct (has_nul s) eqn:Hs; [discriminate|]. intros [= <-]. simpl.
    split; [right; eauto | apply insert_delete_eq].
Qed.

Lemma stage_key_total (configuration : gmap string value) (k : string)
      (w : World) :
  stageable configuration k -> exists w', stage_key configuration k w = (Ok tt, w').
Proof.
  rewrite stage_key_run. intros [->|(s & -> & ->)]; eauto.
Qed.

Lemma staged_lookup (configuration : gmap string value) (k : string)
      (w w' : World) :
  stage_key configuration k w = (Ok tt, w') ->
  environ w' !! k = staged configuration k /\
  forall k', k' <> k -> environ w' !! k' = environ w !! k'.
Proof.
  intros [_ ->]%stage_key_Ok.
  destruct (staged configuration k) as [s|]; split.
  - apply lookup_insert_eq.
  - intros k' Hk'. by apply lookup_insert_ne.
  - apply lookup_delete_eq.
  - intros k' Hk'. by apply lookup_delete_ne.
Qed.

(** The loop over a list of different keys: each key of the list ends
    up as staged, every other key is as before. *)
Lemma stage_keys_Ok (configuration : gmap string value) (l : list string)
      (w w' : World) :
  NoDup l ->
  for_each_M (stage_key configuration) l w = (Ok tt, w') ->
  (forall k, k ∈ l ->
     stageable configuration k /\ environ w' !! k = staged configuration k) /\
  (forall k, k ∉ l -> environ w' !! k = environ w !! k).
Proof.
  intros Hnd. revert w. induction Hnd as [|a l Ha Hnd IH]; intros w; simpl.
  - intros [= <-]. split; [|done]. intros k Hk. by apply elem_of_nil in Hk.
  - unfold mbind, M_bind.
    destruct (stage_key configuration a w) as [[[]|e] w1] eqn:Ea; [|discriminate].
    intros Hrest. destruct (IH _ Hrest) as [Hin Hout].
    destruct (staged_lookup _ _ _ _ Ea) as [Hk Hother].
    split.
    + intros k [->|Hk']%elem_of_cons; [|by apply Hin].
      split; [by apply stage_key_Ok in Ea as [? _]|].
      by rewrite Hout.
    + intros k Hk'%not_elem_of_cons. destruct Hk' as [Hne Hnl].
      rewrite Hout by done. by apply Hother.
Qed.

Lemma stage_keys_total (configuration : gmap string value) (l : list string)
      (w : World) :
  (forall k, k ∈ l -> stageable configuration k) ->
  exists w', for_each_M (stage_key configuration) l w = (Ok tt, w').
Proof.
  revert w. induction l as [|a l IH]; intros w Hl; simpl.
  - by exists w.
  - destruct (stage_key_total configuration a w) as [w1 Hw1]; [apply Hl; left|].
    destruct (IH w1) as [w' Hw']; [intros k Hk; apply Hl; by right|].
    exists w'. unfold mbind, M_bind. by rewrite Hw1.
Qed.

Lemma KNOWN_CONFIG_KEYS_NoDup : NoDup KNOWN_CONFIG_KEYS.
Proof. by apply (bool_decide_unpack (NoDup KNOWN_CONFIG_KEYS)). Qed.

(** C6. Whenever the staging step runs to its end with configuration
    [configuration], every key [k] of the allow-list is in the
    environment if and only if the configuration has a value other than
    [None] for it, and then with exactly that value, whatever the
    environment held before (so allow-listed keys that are absent from
    the configuration, or have no value, are removed); every key that
    is not on the allow-list is left as it was. The step does run to its
    end when each allow-listed key is configured with a string
    [os.environ] accepts, or not configured. *)
Theorem setup_environment_stages_config
        (configuration : gmap string value) (w : World) :
  (forall w', _setup_environment configuration w = (Ok tt, w') ->
     (forall k, k ∈ KNOWN_CONFIG_KEYS ->
        (is_Some (environ w' !! k) <-> configuration_get configuration k <> VNone) /\
        (forall s, environ w' !! k = Some s <->
                   configuration_get configuration k = VStr s)) /\
     (forall k, k ∉ KNOWN_CONFIG_KEYS -> environ w' !! k = environ w !! k)) /\
  ((forall k, k ∈ KNOWN_CONFIG_KEYS -> stageable configuration k) ->
   exists w', _setup_environment configuration w = (Ok tt, w')).
Proof.
  split; [|apply stage_keys_total].
  intros w' Hrun.
  destruct (stage_keys_Ok _ _ _ _ KNOWN_CONFIG_KEYS_NoDup Hrun) as [Hin Hout].
  split; [|done].
  intros k Hk. destruct (Hin k Hk) as [Hok ->]. unfold staged.
  destruct Hok as [->|(s & -> & _)].
  - split; [split; [by intros [? ?] | done] | split; discriminate].
  - split; [split; [done | eauto] | split; congruence].
Qed.

(** ** Running a query *)

Section RunQuery.

Variable json_loads : string -> result value.
Variable json_dumps : value -> string.
Variable encode_utf8 : string -> result string.
Variable SparqlQuery_get_results : string -> M string.
Variable configuration : gmap string value.

Local Abbreviation translate := (_transform_sparql_results json_loads json_dumps).
Local Abbreviation run :=
  (run_query json_loads json_dumps encode_utf8 SparqlQuery_get_results
             configuration).

(** The world in which the staging step of [run_query] starts. *)
Local Abbreviation announced q w :=
  (MkWorld (environ w) (log w ++ [LogInfo "about to execute query: {}" [q]])).

(** C7. Whenever [run_query] returns, it returns the pair
    [(data, None)]: the query was encoded, the configuration staged,
    the client answered [raw], and [data] is what the translator made of
    [raw] encoded as UTF-8; the error of the pair is never anything but
    [None]. And an exception the client raises is the exception of
    [run_query]: nothing catches it. *)
Theorem run_query_result (query : string) (w : World) :
  (forall r w', run query w = (Ok r, w') ->
     exists q w1 raw w2 results data,
       encode_utf8 query = Ok q /\
       _setup_environment configuration (announced q w) = (Ok tt, w1) /\
       SparqlQuery_get_results q w1 = (Ok raw, w2) /\
       encode_utf8 raw = Ok results /\
       translate results w2 = (Ok data, w') /\
       r = (data, None)) /\
  (forall q w1 e w2,
     encode_utf8 query = Ok q ->
     _setup_environment configuration (announced q w) = (Ok tt, w1) ->
     SparqlQuery_get_results q w1 = (Raise e, w2) ->
     run query w = (Raise e, w2)).
Proof.
  unfold run_query, mbind, M_bind, mret, M_ret, lift, logger_info. split.
  - intros r w'.
    destruct (encode_utf8 query) as [q|e]; [|discriminate]. simpl.
    destruct (_setup_environment configuration _) as [[[]|e] w1] eqn:Es;
      [|discriminate].
    destruct (SparqlQuery_get_results q w1) as [[raw|e] w2] eqn:Ec;
      [|discriminate].
    destruct (encode_utf8 raw) as [results|e] eqn:Er; [|discriminate].
    destruct (translate results w2) as [[data|e] w3] eqn:Et; [|discriminate].
    intros [= <- <-]. by exists q, w1, raw, w2, results, data.
  - intros q w1 e w2 -> Hs Hc. simpl. by rewrite Hs, Hc.
Qed.

End RunQuery.

(** ** The theorems at work on the sample inputs *)

Lemma bound_to_objects_b_sound (vars : list string) (bs : list dict) :
  bound_to_objects_b vars bs = true -> bound_to_objects vars bs.
Proof.
  unfold bound_to_objects_b. rewrite forallb_forall.
  intros H b v x Hb%list_elem_of_In Hv%list_elem_of_In E.
  specialize (H b Hb). rewrite forallb_forall in H. specialize (H v Hv).
  rewrite E in H. destruct x; try discriminate. eauto.
Qed.

Local Abbreviation model_translate :=
  (_transform_sparql_results JsonModel.json_loads JsonModel.json_dumps).

(** [translator_rows] on scenario 2 of the spec, run with [JsonModel]:
    [b] is unbound and comes out as the empty string. *)
Lemma translator_rows_witness :
  JsonModel.json_loads scenario_2_text = Ok scenario_2_parsed /\
  sparql_shape scenario_2_parsed ["a"; "b"] [scenario_2_binding] /\
  bound_to_objects ["a"; "b"] [scenario_2_binding] /\
  fst (model_translate scenario_2_text world0) =
    Ok (dq "{'columns': [{'name': 'a', 'friendly_name': 'a', 'type': 'string'}, {'name': 'b', 'friendly_name': 'b', 'type': 'string'}], 'rows': [{'a': 'http://x', 'b': ''}]}") /\
  dict_keys (spec_row ["a"; "b"] scenario_2_binding) = [KStr "a"; KStr "b"].
Proof.
  assert (JsonModel.json_loads scenario_2_text = Ok scenario_2_parsed) as Hload
      by (vm_compute; reflexivity).
  assert (sparql_shape scenario_2_parsed ["a"; "b"] [scenario_2_binding]) as Hshape
      by (split; vm_compute; reflexivity).
  assert (bound_to_objects ["a"; "b"] [scenario_2_binding]) as Hobj
      by (apply bound_to_objects_b_sound; vm_compute; reflexivity).
  destruct (translator_rows JsonModel.json_loads JsonModel.json_dumps
              scenario_2_text scenario_2_parsed ["a"; "b"] [scenario_2_binding]
              world0 Hload Hshape Hobj) as (Hrun & _ & Hkeys).
  split; [exact Hload|]. split; [exact Hshape|]. split; [exact Hobj|]. split.
  - rewrite Hrun. vm_compute. reflexivity.
  - apply Hkeys. apply (bool_decide_unpack (NoDup ["a"; "b"])). vm_compute. reflexivity.
Defined.

(** C1 as stated fails: the text is well shaped, its binding is an
    object, and the translator raises [TypeError] instead of returning a
    row. *)
Lemma translator_rows_plain_string :
  JsonModel.json_loads plain_string_text = Ok plain_string_parsed /\
  sparql_shape plain_string_parsed ["a"] [[(KStr "a", VStr "x")]] /\
  transform plain_string_parsed = Raise TypeError /\
  fst (model_translate plain_string_text world0) = Raise TypeError.
Proof. repeat split; vm_compute; reflexivity. Qed.

(** [translator_columns] on scenario 1. *)
Lemma translator_columns_witness :
  JsonModel.json_loads scenario_1_text = Ok scenario_1_parsed /\
  sparql_shape scenario_1_parsed ["noop"] [[(KStr "noop", VDict [(KStr "type", VStr "literal"); (KStr "value", VStr "noop")])]] /\
  (exists rows,
     fst (model_translate scenario_1_text world0) =
       Ok (JsonModel.json_dumps
             (VDict [(KStr "columns",
                      VList [VDict [(KStr "name", VStr "noop");
                                    (KStr "friendly_name", VStr "noop");
                                    (KStr "type", VStr "string")]]);
                     (KStr "rows", VList rows)]))) /\
  member scenario_1_expected "columns" = Some (VList [spec_column "noop"]).
Proof.
  assert (JsonModel.json_loads scenario_1_text = Ok scenario_1_parsed) as Hload
      by (vm_compute; reflexivity).
  assert (sparql_shape scenario_1_parsed ["noop"] [[(KStr "noop", VDict [(KStr "type", VStr "literal"); (KStr "value", VStr "noop")])]])
    as Hshape by (split; vm_compute; reflexivity).
  destruct (translator_columns JsonModel.json_loads JsonModel.json_dumps
              scenario_1_text scenario_1_parsed ["noop"] _ world0 Hload Hshape)
    as [Hrun Hcols].
  split; [exact Hload|]. split; [exact Hshape|]. split.
  - apply Hrun. apply bound_to_objects_b_sound. vm_compute. reflexivity.
  - apply (Hcols scenario_1_expected). vm_compute. reflexivity.
Defined.

(** [translator_row_keys] on scenario 2. *)
Lemma translator_row_keys_witness :
  sparql_shape scenario_2_parsed ["a"; "b"] [scenario_2_binding] /\
  bound_to_objects ["a"; "b"] [scenario_2_binding] /\
  exists columns rows,
    transform scenario_2_parsed = Ok (redash_result columns rows) /\
    length columns = 2 /\
    length rows = 1 /\
    exists row,
      rows !! 0 = Some (VDict row) /\
      length row = 2 /\
      dict_get row (KStr "b") = Some (VStr EmptyString).
Proof.
  assert (sparql_shape scenario_2_parsed ["a"; "b"] [scenario_2_binding]) as Hshape
      by (split; vm_compute; reflexivity).
  assert (bound_to_objects ["a"; "b"] [scenario_2_binding]) as Hobj
      by (apply bound_to_objects_b_sound; vm_compute; reflexivity).
  split; [exact Hshape|]. split; [exact Hobj|].
  destruct (translator_row_keys scenario_2_parsed ["a"; "b"] [scenario_2_binding]
              Hshape Hobj) as (columns & rows & Hrun & Hc & Hr & Hrows).
  exists columns, rows. split; [exact Hrun|]. split; [exact Hc|]. split; [exact Hr|].
  destruct (Hrows 0 scenario_2_binding eq_refl)
    as (row & Hrow & _ & _ & _ & Hlen & Hunbound).
  exists row. split; [exact Hrow|]. split.
  - apply Hlen. apply (bool_decide_unpack (NoDup ["a"; "b"])). vm_compute. reflexivity.
  - apply Hunbound; [|vm_compute; reflexivity].
    apply list_elem_of_In. simpl. right. left. reflexivity.
Defined.

(** C3 as stated fails: with [head.vars = [a, a]] the input is valid,
    the one row has one key and [head.vars] has length two. *)
Lemma translator_row_keys_duplicate_vars :
  JsonModel.json_loads twice_text = Ok twice_parsed /\
  sparql_shape twice_parsed ["a"; "a"] [twice_binding] /\
  bound_to_objects ["a"; "a"] [twice_binding] /\
  transform twice_parsed =
    Ok (redash_result [spec_column "a"; spec_column "a"]
                      [VDict [(KStr "a", VStr "1")]]) /\
  length (dict_keys [(KStr "a", VStr "1")]) = 1 /\
  length ["a"; "a"] = 2.
Proof.
  split; [vm_compute; reflexivity|].
  split; [split; vm_compute; reflexivity|].
  split; [apply bound_to_objects_b_sound; vm_compute; reflexivity|].
  repeat split; vm_compute; reflexivity.
Qed.

(** [translator_scenario_1] run with [JsonModel]: the text returned, and
    that it denotes the same JSON value as the text of the spec. *)
Lemma translator_scenario_1_witness :
  JsonModel.json_loads scenario_1_text = Ok scenario_1_parsed /\
  fst (model_translate scenario_1_text world0) =
    Ok (JsonModel.json_dumps scenario_1_expected) /\
  JsonModel.json_dumps scenario_1_expected =
    dq "{'columns': [{'name': 'noop', 'friendly_name': 'noop', 'type': 'string'}], 'rows': [{'noop': 'noop'}]}" /\
  JsonModel.json_loads (JsonModel.json_dumps scenario_1_expected) =
    JsonModel.json_loads scenario_1_expected_text.
Proof.
  assert (JsonModel.json_loads scenario_1_text = Ok scenario_1_parsed) as Hload
      by (vm_compute; reflexivity).
  split; [exact Hload|]. split.
  - apply (translator_scenario_1 JsonModel.json_loads JsonModel.json_dumps
             world0 Hload).
  - split; vm_compute; reflexivity.
Defined.

(** [translator_malformed_input] on a text that is not JSON and on a
    JSON text without [head]. *)
Lemma translator_malformed_input_witness :
  (exists e, JsonModel.json_loads not_json_text = Raise e) /\
  (exists e, fst (model_translate not_json_text world0) = Raise e /\
             (JsonModel.json_loads not_json_text = Raise e \/
              e = KeyError \/ e = TypeError)) /\
  (exists j, JsonModel.json_loads no_head_text = Ok j /\
             member2 j "head" "vars" = None) /\
  (exists e, fst (model_translate no_head_text world0) = Raise e /\
             (JsonModel.json_loads no_head_text = Raise e \/
              e = KeyError \/ e = TypeError)).
Proof.
  assert (exists e, JsonModel.json_loads not_json_text = Raise e) as Hbad
      by (exists JSONDecodeError; vm_compute; reflexivity).
  assert (exists j, JsonModel.json_loads no_head_text = Ok j /\
                    member2 j "head" "vars" = None) as Hmiss
      by (eexists; split; vm_compute; reflexivity).
  split; [exact Hbad|]. split; [|split; [exact Hmiss|]].
  - apply (translator_malformed_input JsonModel.json_loads JsonModel.json_dumps
             not_json_text world0). left. exact Hbad.
  - apply (translator_malformed_input JsonModel.json_loads JsonModel.json_dumps
             no_head_text world0). right.
    destruct Hmiss as (j & Hj & Hnone). exists j. split; [exact Hj | left; exact Hnone].
Defined.

(** [translator_type_error] on a binding that gives its variable a
    plain string: an input with well-formed [head] and [results] on
    which the translation fails. *)
Lemma translator_type_error_witness :
  JsonModel.json_loads plain_string_text = Ok plain_string_parsed /\
  sparql_shape plain_string_parsed ["a"] [[(KStr "a", VStr "x")]] /\
  fst (model_translate plain_string_text world0) = Raise TypeError.
Proof.
  assert (JsonModel.json_loads plain_string_text = Ok plain_string_parsed) as Hload
      by (vm_compute; reflexivity).
  assert (sparql_shape plain_string_parsed ["a"] [[(KStr "a", VStr "x")]]) as Hshape
      by (split; vm_compute; reflexivity).
  split; [exact Hload|]. split; [exact Hshape|].
  apply (translator_type_error JsonModel.json_loads JsonModel.json_dumps
           plain_string_text plain_string_parsed ["a"] [[(KStr "a", VStr "x")]]
           [(KStr "a", VStr "x")] "a" (VStr "x") world0 Hload Hshape).
  - apply list_elem_of_In. simpl. left. reflexivity.
  - apply list_elem_of_In. simpl. left. reflexivity.
  - vm_compute. reflexivity.
  - intros descriptor. discriminate.
Defined.

(** [translator_copies_value] on a descriptor whose [value] is the
    number 42. *)
Lemma translator_copies_value_witness :
  JsonModel.json_loads number_text = Ok number_parsed /\
  sparql_shape number_parsed ["n"] [number_binding] /\
  bound_to_objects ["n"] [number_binding] /\
  exists columns rows row column,
    transform number_parsed = Ok (redash_result columns rows) /\
    rows !! 0 = Some (VDict row) /\
    dict_get row (KStr "n") = Some (VInt 42) /\
    column ∈ columns /\
    member column "name" = Some (VStr "n") /\
    member column "type" = Some (VStr "string").
Proof.
  assert (sparql_shape number_parsed ["n"] [number_binding]) as Hshape
      by (split; vm_compute; reflexivity).
  assert (bound_to_objects ["n"] [number_binding]) as Hobj
      by (apply bound_to_objects_b_sound; vm_compute; reflexivity).
  split; [vm_compute; reflexivity|]. split; [exact Hshape|]. split; [exact Hobj|].
  apply (translator_copies_value number_parsed ["n"] [number_binding] 0
           number_binding
           [(KStr "type", VStr "literal"); (KStr "value", VInt 42)]
           "n" (VInt 42) Hshape Hobj).
  - reflexivity.
  - apply list_elem_of_In. simpl. left. reflexivity.
  - vm_compute. reflexivity.
  - vm_compute. reflexivity.
Defined.

(** [setup_environment_stages_config] on scenario 5 of the spec. *)
Lemma setup_environment_stages_config_witness :
  (forall k, k ∈ KNOWN_CONFIG_KEYS -> stageable scenario_5_configuration k) /\
  exists w',
    _setup_environment scenario_5_configuration scenario_5_world = (Ok tt, w') /\
    environ w' !! "CMEM_BASE_URI" = Some "https://x" /\
    environ w' !! "OAUTH_USER" = None /\
    environ w' !! "PATH" = Some "/bin".
Proof.
  assert (forall k, k ∈ KNOWN_CONFIG_KEYS -> stageable scenario_5_configuration k)
    as Hcfg.
  { intros k Hk%list_elem_of_In. simpl in Hk.
    repeat (destruct Hk as [<-|Hk]);
      try (left; vm_compute; reflexivity);
      try (right; eexists; split; vm_compute; reflexivity).
    destruct Hk. }
  split; [exact Hcfg|].
  destruct (setup_environment_stages_config scenario_5_configuration
              scenario_5_world) as [Hafter Hruns].
  destruct (Hruns Hcfg) as [w' Hw']. exists w'. split; [exact Hw'|].
  destruct (Hafter w' Hw') as [Hin Hout].
  split; [|split].
  - apply (Hin "CMEM_BASE_URI").
    + apply (bool_decide_unpack ("CMEM_BASE_URI" ∈ KNOWN_CONFIG_KEYS)).
      vm_compute. reflexivity.
    + vm_compute. reflexivity.
  - destruct (Hin "OAUTH_USER") as [Hsome _].
    + apply (bool_decide_unpack ("OAUTH_USER" ∈ KNOWN_CONFIG_KEYS)).
      vm_compute. reflexivity.
    + destruct (environ w' !! "OAUTH_USER") as [old|]; [|reflexivity].
      destruct Hsome as [Hsome _]. destruct Hsome; [eauto|].
      vm_compute. reflexivity.
  - rewrite Hout; [vm_compute; reflexivity|].
    apply (bool_decide_unpack ("PATH" ∉ KNOWN_CONFIG_KEYS)).
    vm_compute. reflexivity.
Defined.

(** [run_query_result] with a client that answers and with one that
    raises, after the configuration of scenario 5 was staged. *)
Lemma run_query_result_witness :
  (exists r w',
     run_query JsonModel.json_loads JsonModel.json_dumps JsonModel.encode_ascii
               answering_client scenario_5_configuration noop_query
               scenario_5_world = (Ok r, w') /\
     r = (JsonModel.json_dumps scenario_1_expected, None)) /\
  (exists w2,
     run_query JsonModel.json_loads JsonModel.json_dumps JsonModel.encode_ascii
               failing_client scenario_5_configuration noop_query
               scenario_5_world = (Raise (ForeignError "ConnectionError"), w2) /\
     environ w2 !! "CMEM_BASE_URI" = Some "https://x").
Proof.
  split.
  - destruct (run_query_result JsonModel.json_loads JsonModel.json_dumps
                JsonModel.encode_ascii answering_client scenario_5_configuration
                noop_query scenario_5_world) as [Hreturns _].
    assert (exists r w',
              run_query JsonModel.json_loads JsonModel.json_dumps
                        JsonModel.encode_ascii answering_client
                        scenario_5_configuration noop_query scenario_5_world
              = (Ok r, w')) as (r & w' & Hrun)
        by (vm_compute; eexists; eexists; reflexivity).
    exists r, w'. split; [exact Hrun|].
    destruct (Hreturns r w' Hrun)
      as (q & w1 & raw & w2 & results & data & _ & _ & Hraw & Hres & Hdata & ->).
    unfold answering_client in Hraw. injection Hraw as <- _.
    assert (results = scenario_1_text) as ->
        by (vm_compute in Hres; inversion Hres; reflexivity).
    rewrite translate_run in Hdata. apply (f_equal fst) in Hdata.
    vm_compute in Hdata. inversion Hdata. vm_compute. reflexivity.
  - destruct (run_query_result JsonModel.json_loads JsonModel.json_dumps
                JsonModel.encode_ascii failing_client scenario_5_configuration
                noop_query scenario_5_world) as [_ Hraises].
    assert (exists w1,
              _setup_environment scenario_5_configuration
                (MkWorld (environ scenario_5_world)
                         (log scenario_5_world ++
                          [LogInfo "about to execute query: {}" [noop_query]]))
              = (Ok tt, w1) /\
              environ w1 !! "CMEM_BASE_URI" = Some "https://x")
      as (w1 & Hw1 & Henv)
        by (vm_compute; eexists; split; reflexivity).
    exists w1. split; [|exact Henv].
    apply (Hraises noop_query w1 (ForeignError "ConnectionError") w1).
    + vm_compute. reflexivity.
    + exact Hw1.
    + reflexivity.
Defined.

(** * Further properties of the runner *)

(** ** The translation reads [value] fields only *)

Lemma spec_cell_bound_value (b : dict) (v : string) :
  spec_cell b v = default (VStr EmptyString) (bound_value b v).
Proof.
  unfold spec_cell, bound_value.
  destruct (dict_get b (KStr v)) as [[| | | | |descriptor]|]; reflexivity.
Qed.

Lemma fill_row_ext (b b' : dict) (vars : list string) (row : dict) :
  (forall v, v ∈ vars -> spec_cell b v = spec_cell b' v) ->
  fill_row b row vars = fill_row b' row vars.
Proof.
  revert row. induction vars as [|a vars IH]; intros row H; simpl; [done|].
  rewrite (H a) by left. apply IH. intros v Hv. apply H. by right.
Qed.

Lemma spec_rows_ext (vars : list string) (bs bs' : list dict) :
  Forall2 (fun b b' =>
             forall v, v ∈ vars ->
               default (VStr EmptyString) (bound_value b v) =
               default (VStr EmptyString) (bound_value b' v)) bs bs' ->
  (fun b => VDict (spec_row vars b)) <$> bs =
  (fun b => VDict (spec_row vars b)) <$> bs'.
Proof.
  induction 1 as [|b b' bs bs' Hb Hbs IH]; [done|].
  rewrite !fmap_cons, IH. do 2 f_equal. apply fill_row_ext. intros v Hv.
  rewrite !spec_cell_bound_value. by apply Hb.
Qed.

Section ValuesOnly.

Variable json_loads : string -> result value.
Variable json_dumps : value -> string.

(** The translator looks at nothing in a binding but the [value] field
    of the descriptors of the variables of [head.vars]: two valid inputs
    with the same variables whose bindings, one by one, hold the same
    value for every variable (a variable that is unbound, or whose
    descriptor has no [value], counting as the empty string) are
    translated to the same text. Types, datatypes, language tags,
    variables that [head.vars] does not list and the order of the keys
    of a binding make no difference, and neither does the difference
    between an unbound variable and one bound to the empty string. *)
Theorem translator_reads_values_only (s s' : string) (j j' : value)
        (vars : list string) (bs bs' : list dict) (w w' : World) :
  json_loads s = Ok j -> json_loads s' = Ok j' ->
  sparql_shape j vars bs -> sparql_shape j' vars bs' ->
  bound_to_objects vars bs -> bound_to_objects vars bs' ->
  Forall2 (fun b b' =>
             forall v, v ∈ vars ->
               default (VStr EmptyString) (bound_value b v) =
               default (VStr EmptyString) (bound_value b' v)) bs bs' ->
  fst (_transform_sparql_results json_loads json_dumps s w) =
  fst (_transform_sparql_results json_loads json_dumps s' w').
Proof.
  intros Hs Hs' Hj Hj' Hobj Hobj' Hsame. rewrite !translate_run. simpl.
  rewrite Hs, Hs', !bind_Ok.
  rewrite (transform_valid j vars bs), (transform_valid j' vars bs') by done.
  by rewrite (spec_rows_ext vars bs bs').
Qed.

End ValuesOnly.

(** ** The result is a rectangular table *)

Lemma dict_keys_set_add (d : dict) (k : key) (x : value) :
  dict_keys (dict_set d k x) = keys_add (dict_keys d) k.
Proof.
  unfold dict_keys. induction d as [|[k' x'] d IH]; simpl; [done|].
  destruct (key_eqb k' k); [done|]. by rewrite fmap_cons, IH.
Qed.

Lemma as_key_value (v : value) (k : key) : as_key v = Some k -> key_value k = v.
Proof. destruct v; simpl; intros [= <-]; done. Qed.

Lemma keys_add_elem (ks : list key) (k k' : key) :
  k' ∈ keys_add ks k -> k' ∈ ks \/ k' = k.
Proof.
  induction ks as [|a ks IH]; simpl.
  - intros ->%list_elem_of_singleton. by right.
  - destruct (key_eqb a k); [by left|].
    intros [->|H]%elem_of_cons; [left; left|].
    destruct (IH H) as [?|?]; [left; by right | by right].
Qed.

Lemma keys_add_length (ks : list key) (k : key) :
  length (keys_add ks k) <= S (length ks).
Proof.
  induction ks as [|a ks IH]; simpl; [lia|].
  destruct (key_eqb a k); simpl; lia.
Qed.

Lemma keys_fold_elem (ks0 ks : list key) (k' : key) :
  k' ∈ foldl keys_add ks0 ks -> k' ∈ ks0 \/ k' ∈ ks.
Proof.
  revert ks0. induction ks as [|k ks IH]; intros ks0; simpl; [by left|].
  intros [[?| ->]%keys_add_elem|?]%IH; [by left | right; left | right; by right].
Qed.

Lemma keys_fold_length (ks0 ks : list key) :
  length (foldl keys_add ks0 ks) <= length ks0 + length ks.
Proof.
  revert ks0. induction ks as [|k ks IH]; intros ks0; simpl; [lia|].
  specialize (IH (keys_add ks0 k)). pose proof (keys_add_length ks0 k). lia.
Qed.

(** A cell assignment that succeeds has assigned to the key of its
    variable. *)
Lemma set_cell_Ok_inv (row row' : dict) (r var : value) :
  set_cell row r var = Ok row' ->
  exists k x, as_key var = Some k /\ row' = dict_set row k x.
Proof.
  assert (forall x, setitem row var x = Ok row' ->
            exists k x, as_key var = Some k /\ row' = dict_set row k x) as Hset.
  { intros x. unfold setitem. destruct (as_key var) as [k|]; [|discriminate].
    intros [= <-]. eauto. }
  unfold set_cell, assign_cell.
  destruct (getitem r var) as [d|e1]; simpl.
  - destruct (getitem d (VStr "value")) as [x|e2]; simpl.
    + destruct (setitem row var x) as [row1|e3] eqn:E3;
        [intros [= <-]; by apply (Hset x)|].
      destruct e3; try discriminate. apply Hset.
    + destruct e2; try discriminate. apply Hset.
  - destruct e1; try discriminate. apply Hset.
Qed.

Lemma row_loop_keys (r : value) (vs : list value) (row row' : dict) :
  for_each (fun row var => set_cell row r var) row vs = Ok row' ->
  exists ks, Forall2 (fun v k => as_key v = Some k) vs ks /\
             dict_keys row' = foldl keys_add (dict_keys row) ks.
Proof.
  revert row. induction vs as [|v vs IH]; intros row; simpl.
  - intros [= <-]. exists []. by split.
  - intros (row1 & H1 & Hrest)%bind_Ok_inv.
    apply set_cell_Ok_inv in H1 as (k & x & Hk & ->).
    destruct (IH _ Hrest) as (ks & Hks & Hkeys).
    exists (k :: ks). split; [by constructor|].
    by rewrite Hkeys, dict_keys_set_add.
Qed.

Lemma as_keys_unique (vs : list value) (ks ks' : list key) :
  Forall2 (fun v k => as_key v = Some k) vs ks ->
  Forall2 (fun v k => as_key v = Some k) vs ks' ->
  ks = ks'.
Proof.
  intros H. revert ks'. induction H as [|v k vs ks Hk _ IH]; intros ks' H'.
  - by inversion H'.
  - inversion H' as [|v' k' vs' ks'' Hk' Hrest]; subst. f_equal; [congruence|].
    by apply IH.
Qed.

Lemma map_result_Forall2 {A B} (f : A -> result B) (l : list A) (bs : list B) :
  map_result f l = Ok bs -> Forall2 (fun a b => f a = Ok b) l bs.
Proof.
  revert bs. induction l as [|a l IH]; intros bs; simpl.
  - intros [= <-]. constructor.
  - intros (b & Hb & (bs' & Hbs' & [= <-])%bind_Ok_inv)%bind_Ok_inv.
    constructor; [done | by apply IH].
Qed.

Lemma transform_Ok_inv (j out : value) :
  transform j = Ok out ->
  exists bindings vars rows,
    sparql_bindings j = Ok bindings /\ head_vars j = Ok vars /\
    map_result (make_row j) bindings = Ok rows /\
    out = redash_result (make_column <$> vars) rows.
Proof.
  rewrite transform_eq.
  intros (bindings & Hb & (rows & Hr & (vars & Hv & [= <-])%bind_Ok_inv)%bind_Ok_inv)%bind_Ok_inv.
  by exists bindings, vars, rows.
Qed.

Lemma make_row_keys (j r row : value) (vars : list value) :
  head_vars j = Ok vars -> make_row j r = Ok row ->
  exists d ks, row = VDict d /\
               Forall2 (fun v k => as_key v = Some k) vars ks /\
               dict_keys d = foldl keys_add [] ks.
Proof.
  intros Hv. unfold make_row. rewrite Hv, bind_Ok.
  intros (d & Hd & [= <-])%bind_Ok_inv.
  apply row_loop_keys in Hd as (ks & Hks & Hkeys). by exists d, ks.
Qed.

(** Whatever the input, a translation that returns has built a
    rectangular table: every column is a dict [{name: v, friendly_name:
    v, type: "string"}], every row is a dict, all rows have the same
    keys in the same order, a row has no more keys than there are
    columns, and every key of a row is the name of a column. *)
Theorem translator_result_rectangular (j out : value) :
  transform j = Ok out ->
  exists columns rows keys,
    out = redash_result columns rows /\
    (forall c, c ∈ columns ->
       exists v, c = VDict [(KStr "name", v); (KStr "friendly_name", v);
                            (KStr "type", VStr "string")]) /\
    (forall r, r ∈ rows -> exists d, r = VDict d /\ dict_keys d = keys) /\
    length keys <= length columns /\
    (forall k, k ∈ keys -> make_column (key_value k) ∈ columns).
Proof.
  intros (bindings & vars & rows & Hb & Hv & Hrows & ->)%transform_Ok_inv.
  apply map_result_Forall2 in Hrows.
  assert (forall c, c ∈ make_column <$> vars ->
            exists v, c = VDict [(KStr "name", v); (KStr "friendly_name", v);
                                 (KStr "type", VStr "string")]) as Hcols.
  { intros c (v & -> & _)%list_elem_of_fmap. by exists v. }
  destruct Hrows as [|r0 row0 bindings rows H0 Hrest].
  { exists (make_column <$> vars), [], []. split; [done|]. split; [done|].
    split; [intros r Hr; by apply elem_of_nil in Hr|].
    split; [simpl; lia|]. intros k Hk. by apply elem_of_nil in Hk. }
  destruct (make_row_keys _ _ _ _ Hv H0) as (d0 & ks & -> & Hks & Hkeys0).
  exists (make_column <$> vars), (VDict d0 :: rows), (foldl keys_add [] ks).
  split; [done|]. split; [done|]. split; [|split].
  - intros r [->|Hr]%elem_of_cons; [by exists d0|].
    apply list_elem_of_lookup in Hr as [i Hi].
    destruct (Forall2_lookup_r _ _ _ _ _ Hrest Hi) as (b & _ & Hrow).
    destruct (make_row_keys _ _ _ _ Hv Hrow) as (d & ks' & -> & Hks' & Hkeys).
    exists d. split; [done|]. by rewrite Hkeys, (as_keys_unique vars ks' ks).
  - rewrite length_fmap. pose proof (keys_fold_length [] ks) as Hlen.
    apply Forall2_length in Hks. simpl in Hlen. lia.
  - intros k [Hk|Hk]%keys_fold_elem; [by apply elem_of_nil in Hk|].
    apply list_elem_of_lookup in Hk as [i Hi].
    destruct (Forall2_lookup_r _ _ _ _ _ Hks Hi) as (v & Hv' & Hvk).
    apply as_key_value in Hvk as ->.
    apply list_elem_of_fmap_2. by apply list_elem_of_lookup_2 in Hv'.
Qed.

Lemma translator_result_rectangular_witness :
  transform scenario_2_variant_parsed =
    Ok (redash_result [spec_column "a"; spec_column "b"]
                      [VDict [(KStr "a", VStr "http://x");
                              (KStr "b", VStr EmptyString)]]) /\
  exists columns rows keys,
    redash_result [spec_column "a"; spec_column "b"]
                  [VDict [(KStr "a", VStr "http://x");
                          (KStr "b", VStr EmptyString)]] =
      redash_result columns rows /\
    (forall r, r ∈ rows -> exists d, r = VDict d /\ dict_keys d = keys) /\
    length keys <= length columns.
Proof.
  assert (transform scenario_2_variant_parsed =
            Ok (redash_result [spec_column "a"; spec_column "b"]
                              [VDict [(KStr "a", VStr "http://x");
                                      (KStr "b", VStr EmptyString)]])) as Hrun
      by (vm_compute; reflexivity).
  split; [exact Hrun|].
  destruct (translator_result_rectangular _ _ Hrun)
    as (columns & rows & keys & Hout & _ & Hrows & Hlen & _).
  exists columns, rows, keys. split; [exact Hout|]. split; [exact Hrows | exact Hlen].
Defined.

(** ** Bindings that are not objects, and no variables at all *)

Lemma set_cell_str_exn (row : dict) (r : value) (v : string) (e : exn) :
  set_cell row r (VStr v) = Raise e -> e = TypeError.
Proof.
  destruct r as [| | |s|l|b]; try (by intros [= <-]).
  apply set_cell_exn.
Qed.

Lemma set_cell_stray (row : dict) (r : value) (v : string) :
  (forall b, r <> VDict b) -> set_cell row r (VStr v) = Raise TypeError.
Proof. intros Hr. destruct r as [| | |s|l|b]; try done. by destruct (Hr b). Qed.

Lemma row_loop_str_exn (r : value) (vars : list string) (row : dict) (e : exn) :
  for_each (fun row var => set_cell row r var) row (VStr <$> vars) = Raise e ->
  e = TypeError.
Proof.
  revert row. induction vars as [|v vars IH]; intros row; simpl; [discriminate|].
  destruct (set_cell row r (VStr v)) as [row'|e'] eqn:E; simpl.
  - apply IH.
  - intros [= <-]. by apply set_cell_str_exn in E.
Qed.

(** When [head.vars] is a non-empty array of strings and
    [results.bindings] is an array with an item that is not an object (a
    list, a string, a number, [null]), the translation raises
    [TypeError]: the subscript [sparql_row[var]] fails on such an item,
    and the handler of [KeyError] does not apply. *)
Theorem translator_stray_binding (j : value) (vars : list string)
        (bindings : list value) (r : value) :
  member2 j "head" "vars" = Some (VList (VStr <$> vars)) ->
  vars <> [] ->
  member2 j "results" "bindings" = Some (VList bindings) ->
  r ∈ bindings -> (forall b, r <> VDict b) ->
  transform j = Raise TypeError.
Proof.
  intros Hvars Hne Hbind Hr Hstray.
  assert (head_vars j = Ok (VStr <$> vars)) as Hhead.
  { unfold head_vars. unfold member2 in Hvars.
    destruct (member j "head") as [h|] eqn:E; [|discriminate]. simpl in Hvars.
    apply getitem_str in E, Hvars. by rewrite E, bind_Ok, Hvars. }
  assert (sparql_bindings j = Ok bindings) as Hb.
  { unfold sparql_bindings. unfold member2 in Hbind.
    destruct (member j "results") as [h|] eqn:E; [|discriminate]. simpl in Hbind.
    apply getitem_str in E, Hbind. by rewrite E, bind_Ok, Hbind. }
  rewrite transform_eq, Hb, bind_Ok.
  rewrite (map_result_raises _ _ TypeError); [done| |].
  - intros a e' _. unfold make_row. rewrite Hhead, bind_Ok.
    destruct (for_each _ _ _) as [row|e''] eqn:E; simpl; [discriminate|].
    intros [= <-]. by apply row_loop_str_exn in E.
  - exists r. split; [done|]. unfold make_row. rewrite Hhead, bind_Ok.
    destruct vars as [|v vars]; [done|]. simpl.
    by rewrite set_cell_stray.
Qed.

Lemma translator_stray_binding_witness :
  transform stray_binding_parsed = Raise TypeError.
Proof.
  apply (translator_stray_binding stray_binding_parsed ["a"]
           [VDict [(KStr "a", VDict [(KStr "value", VStr "1")])]; VList [VStr "a"]]
           (VList [VStr "a"])).
  - vm_compute. reflexivity.
  - discriminate.
  - vm_compute. reflexivity.
  - apply list_elem_of_In. simpl. right. left. reflexivity.
  - intros b. discriminate.
Defined.

(** With an empty [head.vars] nothing is ever looked up in a binding:
    whatever [results.bindings] is, each of the items a loop over it
    visits gives one empty row, and there are no columns. *)
Theorem translator_no_vars (j bindings : value) (items : list value) :
  member2 j "head" "vars" = Some (VList []) ->
  member2 j "results" "bindings" = Some bindings ->
  py_iter bindings = Ok items ->
  transform j = Ok (redash_result [] ((fun _ => VDict []) <$> items)).
Proof.
  intros Hvars Hbind Hitems.
  assert (head_vars j = Ok []) as Hhead.
  { unfold head_vars. unfold member2 in Hvars.
    destruct (member j "head") as [h|] eqn:E; [|discriminate]. simpl in Hvars.
    apply getitem_str in E, Hvars. by rewrite E, bind_Ok, Hvars. }
  assert (sparql_bindings j = Ok items) as Hb.
  { unfold sparql_bindings. unfold member2 in Hbind.
    destruct (member j "results") as [h|] eqn:E; [|discriminate]. simpl in Hbind.
    apply getitem_str in E, Hbind. by rewrite E, bind_Ok, Hbind. }
  rewrite transform_eq, Hb, bind_Ok, Hhead.
  rewrite (map_result_total _ (fun _ => VDict [])); [done|].
  intros a _. unfold make_row. by rewrite Hhead.
Qed.

Lemma translator_no_vars_witness :
  transform no_vars_parsed = Ok (redash_result [] [VDict []; VDict []]).
Proof.
  apply (translator_no_vars no_vars_parsed
           (VList [VDict [(KStr "a", VStr "x")]; VInt 5])
           [VDict [(KStr "a", VStr "x")]; VInt 5]);
    vm_compute; reflexivity.
Defined.

(** ** What the staging step logs *)




(** ** Staging twice, and staging that fails *)

(** Staging one configuration after another leaves the environment that
    staging the second alone would have left: whatever an earlier
    configuration put under an allow-listed key is gone. In particular
    staging the same configuration again changes nothing. *)
Theorem staging_last_wins (configuration1 configuration2 : gmap string value)
        (w w1 w2 : World) :
  _setup_environment configuration1 w = (Ok tt, w1) ->
  _setup_environment configuration2 w1 = (Ok tt, w2) ->
  exists w2', _setup_environment configuration2 w = (Ok tt, w2') /\
              environ w2' = environ w2.
Proof.
  intros H1 H2.
  destruct (stage_keys_Ok _ _ _ _ KNOWN_CONFIG_KEYS_NoDup H1) as [_ Hout1].
  destruct (stage_keys_Ok _ _ _ _ KNOWN_CONFIG_KEYS_NoDup H2) as [Hin2 Hout2].
  destruct (stage_keys_total configuration2 KNOWN_CONFIG_KEYS w) as [w2' H2'].
  { intros k Hk. by destruct (Hin2 k Hk). }
  exists w2'. split; [done|].
  destruct (stage_keys_Ok _ _ _ _ KNOWN_CONFIG_KEYS_NoDup H2') as [Hin2' Hout2'].
  apply map_eq. intros k.
  destruct (decide (k ∈ KNOWN_CONFIG_KEYS)) as [Hk|Hk].
  - destruct (Hin2 k Hk) as [_ ->]. by destruct (Hin2' k Hk) as [_ ->].
  - by rewrite Hout2', Hout2, Hout1.
Qed.

Lemma staging_last_wins_witness :
  exists w1 w2 w2',
    _setup_environment secret_configuration earlier_world = (Ok tt, w1) /\
    _setup_environment scenario_5_configuration w1 = (Ok tt, w2) /\
    _setup_environment scenario_5_configuration earlier_world = (Ok tt, w2') /\
    environ w2' = environ w2 /\
    environ w2 !! "OAUTH_CLIENT_SECRET" = None.
Proof.
  assert (exists w1 w2,
            _setup_environment secret_configuration earlier_world = (Ok tt, w1) /\
            _setup_environment scenario_5_configuration w1 = (Ok tt, w2) /\
            environ w2 !! "OAUTH_CLIENT_SECRET" = None)
    as (w1 & w2 & H1 & H2 & Hgone).
  { exists (snd (_setup_environment secret_configuration earlier_world)).
    exists (snd (_setup_environment scenario_5_configuration
                   (snd (_setup_environment secret_configuration earlier_world)))).
    repeat split; vm_compute; reflexivity. }
  destruct (staging_last_wins secret_configuration scenario_5_configuration
              earlier_world w1 w2 H1 H2) as (w2' & H2' & Henv).
  exists w1, w2, w2'. repeat split; assumption.
Defined.

Lemma for_each_M_app {A} (body : A -> M unit) (l1 l2 : list A) (w : World) :
  for_each_M body (l1 ++ l2) w =
  match for_each_M body l1 w with
  | (Ok _, w1) => for_each_M body l2 w1
  | (Raise e, w1) => (Raise e, w1)
  end.
Proof.
  revert w. induction l1 as [|a l1 IH]; intros w; simpl; [done|].
  unfold mbind, M_bind. destruct (body a w) as [[[]|e] w1]; [apply IH | done].
Qed.

(** A key that is not stageable makes its turn of the loop raise, after
    the key was taken out of the environment. *)
Lemma stage_key_fails (configuration : gmap string value) (k : string)
      (w : World) :
  ~ stageable configuration k ->
  exists e,
    stage_key configuration k w =
      (Raise e, MkWorld (delete k (environ w)) (log w)) /\
    ((e = ValueError /\ exists s, configuration_get configuration k = VStr s) \/
     (e = TypeError /\ forall s, configuration_get configuration k <> VStr s)).
Proof.
  intros Hbad. rewrite stage_key_run. unfold stageable in Hbad.
  destruct (configuration_get configuration k) as [| | |s|?|?] eqn:E;
    try (exists TypeError; split; [done | right; split; [done | discriminate]]).
  - destruct Hbad. by left.
  - destruct (has_nul s) eqn:Hs.
    + exists ValueError. split; [done | left; eauto].
    + destruct Hbad. right. eauto.
Qed.

(** When the value configured for an allow-listed key is not [None] and
    not a string [os.environ] accepts, the staging step raises at that
    key ([ValueError] for a string, [TypeError] for anything else) and
    leaves the environment half staged: the keys before it in the order
    of the allow-list are staged, the key itself is removed, and every
    other key, the allow-listed keys after it included, is as it was
    before. *)
Theorem staging_fails_half_way (configuration : gmap string value)
        (before after : list string) (k0 : string) (w : World) :
  KNOWN_CONFIG_KEYS = before ++ k0 :: after ->
  (forall k, k ∈ before -> stageable configuration k) ->
  ~ stageable configuration k0 ->
  exists e w',
    _setup_environment configuration w = (Raise e, w') /\
    ((e = ValueError /\ exists s, configuration_get configuration k0 = VStr s) \/
     (e = TypeError /\ forall s, configuration_get configuration k0 <> VStr s)) /\
    environ w' !! k0 = None /\
    (forall k, k ∈ before -> environ w' !! k = staged configuration k) /\
    (forall k, k ∉ before -> k <> k0 -> environ w' !! k = environ w !! k).
Proof.
  intros Hsplit Hbefore Hbad.
  pose proof KNOWN_CONFIG_KEYS_NoDup as Hnd. rewrite Hsplit in Hnd.
  apply NoDup_app in Hnd as (Hnd1 & Hdisj & Hnd2).
  unfold _setup_environment. rewrite Hsplit, for_each_M_app.
  destruct (stage_keys_total configuration before w Hbefore) as [w1 Hw1].
  rewrite Hw1.
  destruct (stage_keys_Ok _ _ _ _ Hnd1 Hw1) as [Hin Hout].
  destruct (stage_key_fails configuration k0 w1 Hbad) as (e & He & Hkind).
  exists e, (MkWorld (delete k0 (environ w1)) (log w1)).
  simpl. unfold mbind, M_bind. rewrite He.
  split; [done|]. split; [done|]. simpl.
  split; [apply lookup_delete_eq|]. split.
  - intros k Hk. rewrite lookup_delete_ne.
    + by destruct (Hin k Hk).
    + intros <-. apply (Hdisj k0 Hk). left.
  - intros k Hk Hne. rewrite lookup_delete_ne by done. by apply Hout.
Qed.

Lemma staging_fails_half_way_witness :
  exists w',
    _setup_environment ssl_flag_configuration earlier_world =
      (Raise TypeError, w') /\
    environ w' !! "SSL_VERIFY" = None /\
    environ w' !! "CMEM_BASE_URI" = Some "https://x" /\
    environ w' !! "OAUTH_USER" = Some "old".
Proof.
  destruct (staging_fails_half_way ssl_flag_configuration
              ["CMEM_BASE_PROTOCOL"; "CMEM_BASE_DOMAIN"; "CMEM_BASE_URI"]
              ["REQUESTS_CA_BUNDLE"; "DP_API_ENDPOINT"; "DI_API_ENDPOINT";
               "OAUTH_TOKEN_URI"; "OAUTH_GRANT_TYPE"; "OAUTH_USER";
               "OAUTH_PASSWORD"; "OAUTH_CLIENT_ID"; "OAUTH_CLIENT_SECRET"]
              "SSL_VERIFY" earlier_world)
    as (e & w' & Hrun & Hkind & Hgone & Hbefore & Hother).
  - reflexivity.
  - intros k Hk%list_elem_of_In. simpl in Hk.
    repeat (destruct Hk as [<-|Hk]);
      try (left; vm_compute; reflexivity);
      try (right; eexists; split; vm_compute; reflexivity).
    destruct Hk.
  - intros [Hnone|(s & Hs & _)]; vm_compute in Hnone || vm_compute in Hs;
      discriminate.
  - exists w'.
    assert (e = TypeError) as ->.
    { destruct Hkind as [[_ (s & Hs)]|[-> _]]; [|reflexivity].
      vm_compute in Hs. discriminate. }
    split; [exact Hrun|]. split; [exact Hgone|]. split.
    + rewrite Hbefore; [vm_compute; reflexivity|].
      apply list_elem_of_In. simpl. tauto.
    + rewrite Hother; [vm_compute; reflexivity| |discriminate].
      apply (bool_decide_unpack (_ ∉ _)). vm_compute. reflexivity.
Defined.

(** ** The client and the staged environment *)

Lemma stage_keys_fail (configuration : gmap string value) (l : list string)
      (w : World) :
  (exists k, k ∈ l /\ ~ stageable configuration k) ->
  exists e w',
    for_each_M (stage_key configuration) l w = (Raise e, w') /\
    (e = TypeError \/ e = ValueError).
Proof.
  revert w. induction l as [|a l IH]; intros w (k & Hk & Hbad).
  - by apply elem_of_nil in Hk.
  - simpl. unfold mbind, M_bind.
    destruct (stage_key configuration a w) as [[[]|e] w1] eqn:Ea.
    + apply stage_key_Ok in Ea as [Hok _].
      apply elem_of_cons in Hk as [->|Hk]; [done|].
      apply IH. eauto.
    + exists e, w1. split; [done|].
      rewrite stage_key_run in Ea.
      destruct (configuration_get configuration a) as [| | |s|?|?];
        try (injection Ea as <- _; by left); [discriminate|].
      destruct (has_nul s); [|discriminate]. injection Ea as <- _. by right.
Qed.

Section Client.

Variable json_loads : string -> result value.
Variable json_dumps : value -> string.
Variable encode_utf8 : string -> result string.
Variable configuration : gmap string value.


(** A configuration with a value [os.environ] does not accept under an
    allow-listed key makes [run_query] raise [TypeError] or [ValueError]
    before the client is called: the outcome is the same whatever the
    client is. (A query text that cannot be encoded raises earlier
    still.) *)
Theorem run_query_bad_configuration (query q : string) (w : World) :
  encode_utf8 query = Ok q ->
  (exists k, k ∈ KNOWN_CONFIG_KEYS /\ ~ stageable configuration k) ->
  exists e w1,
    (e = TypeError \/ e = ValueError) /\
    forall SparqlQuery_get_results : string -> M string,
      run_query json_loads json_dumps encode_utf8 SparqlQuery_get_results
                configuration query w = (Raise e, w1).
Proof.
  intros Hq Hbad.
  destruct (stage_keys_fail configuration KNOWN_CONFIG_KEYS
              (MkWorld (environ w)
                       (log w ++ [LogInfo "about to execute query: {}" [q]]))
              Hbad) as (e & w1 & Hs & Hkind).
  exists e, w1. split; [done|]. intros client.
  unfold run_query, mbind, M_bind, mret, M_ret, lift, logger_info.
  change (_setup_environment configuration
            (MkWorld (environ w)
                     (log w ++ [LogInfo "about to execute query: {}" [q]]))
          = (Raise e, w1)) in Hs.
  rewrite Hq. simpl. by rewrite Hs.
Qed.

End Client.


Lemma run_query_bad_configuration_witness :
  exists w1,
    run_query JsonModel.json_loads JsonModel.json_dumps JsonModel.encode_ascii
              answering_client ssl_flag_configuration noop_query earlier_world
      = (Raise TypeError, w1) /\
    run_query JsonModel.json_loads JsonModel.json_dumps JsonModel.encode_ascii
              failing_client ssl_flag_configuration noop_query earlier_world
      = (Raise TypeError, w1).
Proof.
  destruct (run_query_bad_configuration JsonModel.json_loads
              JsonModel.json_dumps JsonModel.encode_ascii
              ssl_flag_configuration noop_query noop_query earlier_world)
    as (e & w1 & Hkind & Hrun).
  - vm_compute. reflexivity.
  - exists "SSL_VERIFY". split.
    + apply (bool_decide_unpack (_ ∈ _)). vm_compute. reflexivity.
    + intros [Hnone|(s & Hs & _)]; vm_compute in Hnone || vm_compute in Hs;
        discriminate.
  - exists w1.
    assert (e = TypeError) as ->.
    { pose proof (Hrun answering_client) as H. apply (f_equal fst) in H.
      vm_compute in H. inversion H. reflexivity. }
    split; apply Hrun.
Defined.

(** ** The configuration schema and the allow-list *)

Lemma dict_get_str_elem (d : dict) (k : string) (x : value) :
  dict_get d (KStr k) = Some x -> KStr k ∈ dict_keys d.
Proof.
  unfold dict_keys. induction d as [|[k' x'] d IH]; simpl; [discriminate|].
  destruct (key_eqb k' (KStr k)) eqn:E.
  - rewrite key_eqb_sym in E. apply key_eqb_str_l in E as ->. intros _. left.
  - intros H. right. by apply IH.
Qed.

Lemma schema_property_known (k : string) :
  schema_property configuration_schema k -> k ∈ KNOWN_CONFIG_KEYS.
Proof.
  intros [description H]. unfold member2 in H.
  destruct (member configuration_schema "properties") as [properties|] eqn:E;
    [|discriminate].
  vm_compute in E. inversion E; subst properties. clear E.
  apply dict_get_str_elem, list_elem_of_In in H. simpl in H.
  repeat (destruct H as [[= <-]|H];
          [apply (bool_decide_unpack (_ ∈ _)); vm_compute; reflexivity|]).
  destruct H.
Qed.

(** Every property the configuration schema declares is on the
    allow-list, so a string configured for it is in the environment,
    under the same name, after each run of the staging step that reaches
    its end. *)
Theorem schema_properties_staged (configuration : gmap string value)
        (w w' : World) (k s : string) :
  schema_property configuration_schema k ->
  configuration_get configuration k = VStr s ->
  _setup_environment configuration w = (Ok tt, w') ->
  k ∈ KNOWN_CONFIG_KEYS /\ environ w' !! k = Some s.
Proof.
  intros Hk%schema_property_known Hs Hrun. split; [done|].
  destruct (stage_keys_Ok _ _ _ _ KNOWN_CONFIG_KEYS_NoDup Hrun) as [Hin _].
  destruct (Hin k Hk) as [_ ->]. unfold staged. by rewrite Hs.
Qed.

Lemma schema_properties_staged_witness :
  let w' := snd (_setup_environment secret_configuration earlier_world) in
  schema_property configuration_schema "OAUTH_CLIENT_SECRET" /\
  _setup_environment secret_configuration earlier_world = (Ok tt, w') /\
  environ w' !! "OAUTH_CLIENT_SECRET" = Some "s3cret".
Proof.
  intros w'.
  assert (schema_property configuration_schema "OAUTH_CLIENT_SECRET") as Hk
      by (eexists; vm_compute; reflexivity).
  assert (_setup_environment secret_configuration earlier_world = (Ok tt, w'))
    as Hrun by (vm_compute; reflexivity).
  split; [exact Hk|]. split; [exact Hrun|].
  apply (schema_properties_staged secret_configuration earlier_world w'
           "OAUTH_CLIENT_SECRET" "s3cret" Hk); [vm_compute; reflexivity | exact Hrun].
Defined.

Lemma translator_reads_values_only_witness :
  JsonModel.json_loads scenario_2_text = Ok scenario_2_parsed /\
  JsonModel.json_loads scenario_2_variant_text = Ok scenario_2_variant_parsed /\
  fst (model_translate scenario_2_text world0) =
  fst (model_translate scenario_2_variant_text earlier_world).
Proof.
  assert (JsonModel.json_loads scenario_2_text = Ok scenario_2_parsed) as Hs
      by (vm_compute; reflexivity).
  assert (JsonModel.json_loads scenario_2_variant_text
          = Ok scenario_2_variant_parsed) as Hs'
      by (vm_compute; reflexivity).
  split; [exact Hs|]. split; [exact Hs'|].
  apply (translator_reads_values_only JsonModel.json_loads JsonModel.json_dumps
           scenario_2_text scenario_2_variant_text
           scenario_2_parsed scenario_2_variant_parsed ["a"; "b"]
           [scenario_2_binding] [scenario_2_variant_binding]
           world0 earlier_world Hs Hs').
  - split; vm_compute; reflexivity.
  - split; vm_compute; reflexivity.
  - apply bound_to_objects_b_sound. vm_compute. reflexivity.
  - apply bound_to_objects_b_sound. vm_compute. reflexivity.
  - constructor; [|constructor].
    intros v Hv%list_elem_of_In. simpl in Hv.
    destruct Hv as [<-|[<-|[]]]; vm_compute; reflexivity.
Defined.
